(** * LC-3 virtual machine (src/main.c): shallow embedding and properties

    The interpreter of [src/main.c] keeps its state in two global arrays
    ([memory], [registers]), a local flag of [main] ([running]) and the two
    standard streams.  The embedding threads that state explicitly through a
    small state-and-failure monad: a computation either returns a value and a
    new machine, or the process is killed by [abort()], or the C program
    leaves defined behaviour (an array indexed outside its bounds).

    Integers are [Z]; every conversion to [uint16_t], [int] or [char] that the
    C code performs implicitly is written out ([wrap16], [int32], [to_char]). *)

From Stdlib Require Import ZArith Lia Bool String Ascii.
From stdpp Require Import base list.

Local Open Scope Z_scope.

(** ** Constants of the source *)

(** [<stdint.h>]: the largest [uint16_t]. *)
Definition UINT16_MAX : Z := 65535.

(** [#define PC_START 0x3000] *)
Definition PC_START : Z := 0x3000.

(** [enum { R0 = 0, R1, ..., R7, R_PC, R_COND, R_COUNT }] *)
Definition R0 : Z := 0.
Definition R1 : Z := 1.
Definition R2 : Z := 2.
Definition R3 : Z := 3.
Definition R4 : Z := 4.
Definition R5 : Z := 5.
Definition R6 : Z := 6.
Definition R7 : Z := 7.
Definition R_PC : Z := 8.
Definition R_COND : Z := 9.
Definition R_COUNT : Z := 10.

(** [enum { FLG_POS = 1 << 0, FLG_ZRO = 1 << 1, FLG_NEG = 1 << 2 }] *)
Definition FLG_POS : Z := Z.shiftl 1 0.
Definition FLG_ZRO : Z := Z.shiftl 1 1.
Definition FLG_NEG : Z := Z.shiftl 1 2.

(** Opcodes, in the order of the [enum]. *)
Definition OP_BR : Z := 0.
Definition OP_ADD : Z := 1.
Definition OP_LD : Z := 2.
Definition OP_ST : Z := 3.
Definition OP_JSR : Z := 4.
Definition OP_AND : Z := 5.
Definition OP_LDR : Z := 6.
Definition OP_STR : Z := 7.
Definition OP_RTI : Z := 8.
Definition OP_NOT : Z := 9.
Definition OP_LDI : Z := 10.
Definition OP_STI : Z := 11.
Definition OP_JMP : Z := 12.
Definition OP_RES : Z := 13.
Definition OP_LEA : Z := 14.
Definition OP_TRAP : Z := 15.

(** Trap routines. *)
Definition TRAP_GETC : Z := 0x20.
Definition TRAP_OUT : Z := 0x21.
Definition TRAP_PUTS : Z := 0x22.
Definition TRAP_IN : Z := 0x23.
Definition TRAP_PUTSP : Z := 0x24.
Definition TRAP_HALT : Z := 0x25.

(** Memory-mapped registers. *)
Definition MR_KBSR : Z := 0xFE00.
Definition MR_KBDR : Z := 0xFE02.

(** [<stdio.h>]: the value [getchar] returns at end of input. *)
Definition EOF : Z := -1.

(** ** C integer conversions *)

(** The values of a [uint16_t]. *)
Definition u16 (v : Z) : Prop := 0 <= v < 65536.

(** Conversion to [uint16_t]. *)
Definition wrap16 (x : Z) : Z := x mod 65536.

(** Value of an [int] computation (32 bits, two's complement). *)
Definition int32 (x : Z) : Z := (x + 2147483648) mod 4294967296 - 2147483648.

(** Conversion to [char] ([char] is signed, 8 bits). *)
Definition to_char (x : Z) : Z := (x + 128) mod 256 - 128.

(** Conversion to [unsigned char], as the output functions apply it. *)
Definition to_uchar (x : Z) : Z := x mod 256.

(** A C scalar used as a condition. *)
Definition c_true (x : Z) : bool := negb (x =? 0).

(** The bytes of a string literal. *)
Definition bytes_of_string (s : string) : list Z :=
  map (fun c => Z.of_N (N_of_ascii c)) (list_ascii_of_string s).

(** ** Machine state *)

(** [memory] and [registers] are the two global arrays; [running] is the
    local flag of [main]; [stdout] holds the bytes written so far.

    The input has two sides, as in the program.  [stdin] is the stream that
    [getchar] reads: the bytes it has not returned yet, in order, whether
    they sit in the buffer of the stream, wait in the descriptor or have not
    arrived; after them the stream is at its end.  [polls] is the
    descriptor as [select] sees it: the answers of the next calls of
    [select], [true] when a [read] would return at once (bytes wait in the
    descriptor, or it is at end of file or in error) and [false] when it
    would block.  These answers depend on when the bytes arrive and on what
    the stream has read ahead into its buffer, so they are given with the
    state and are not computed from [stdin].  Once [polls] is used up the
    descriptor stays readable, as a regular file or a pipe whose writer has
    finished does. *)
Record machine : Type := Machine {
  memory : list Z;
  registers : list Z;
  running : bool;
  stdin : list Z;
  polls : list bool;
  stdout : list Z
}.

Definition with_memory (m : list Z) (st : machine) : machine :=
  Machine m (registers st) (running st) (stdin st) (polls st) (stdout st).
Definition with_registers (r : list Z) (st : machine) : machine :=
  Machine (memory st) r (running st) (stdin st) (polls st) (stdout st).
Definition with_stdin (i : list Z) (st : machine) : machine :=
  Machine (memory st) (registers st) (running st) i (polls st) (stdout st).
Definition with_polls (p : list bool) (st : machine) : machine :=
  Machine (memory st) (registers st) (running st) (stdin st) p (stdout st).
Definition with_stdout (o : list Z) (st : machine) : machine :=
  Machine (memory st) (registers st) (running st) (stdin st) (polls st) o.

(** The arrays have the sizes of their declarations:
    [uint16_t memory[UINT16_MAX]] and [uint16_t registers[R_COUNT]]. *)
Definition well_sized (st : machine) : Prop :=
  length (memory st) = Z.to_nat UINT16_MAX /\
  length (registers st) = Z.to_nat R_COUNT.

(** ** The monad of machine computations *)

Inductive result (A : Type) : Type :=
  | Ok (a : A)        (* normal completion *)
  | Aborted           (* abort() was called *)
  | Undefined.        (* an array was indexed outside its bounds *)
Arguments Ok {A} a.
Arguments Aborted {A}.
Arguments Undefined {A}.

Definition M (A : Type) : Type := machine -> result (A * machine).

Definition ret {A} (a : A) : M A := fun st => Ok (a, st).

Definition bind {A B} (m : M A) (f : A -> M B) : M B :=
  fun st =>
    match m st with
    | Ok (a, st') => f a st'
    | Aborted => Aborted
    | Undefined => Undefined
    end.

Notation "'let*' x := m 'in' k" := (bind m (fun x => k))
  (at level 10, x name, m at level 100, k at level 200, only parsing).
Notation "'do' m ; k" := (bind m (fun _ => k))
  (at level 10, m at level 100, k at level 200, only parsing).

Definition abort {A} : M A := fun _ => Aborted.

(** *** Array accesses *)

(** [registers[r]]; [r] is always a 3-bit field or one of [R0], [R7],
    [R_PC], [R_COND], hence below [R_COUNT]. *)
Definition get_reg (r : Z) : M Z :=
  fun st => Ok (registers st !!! Z.to_nat r, st).

(** [registers[r] = v] *)
Definition set_reg (r v : Z) : M unit :=
  fun st => Ok (tt, with_registers (<[Z.to_nat r := v]> (registers st)) st).

(** [memory[a]] as an rvalue: outside the array the behaviour is undefined. *)
Definition mem_load (a : Z) : M Z :=
  fun st =>
    match memory st !! Z.to_nat a with
    | Some v => Ok (v, st)
    | None => Undefined
    end.

(** [memory[a] = v] *)
Definition mem_store (a v : Z) : M unit :=
  fun st =>
    match memory st !! Z.to_nat a with
    | Some _ => Ok (tt, with_memory (<[Z.to_nat a := v]> (memory st)) st)
    | None => Undefined
    end.

(** *** The input and output devices *)

(** [uint16_t check_key()]: [select] on the descriptor of standard input
    with a zero timeout, compared with 0.  The call returns what the
    descriptor shows at that moment and takes no byte from the stream. *)
Definition check_key : M bool :=
  fun st =>
    match polls st with
    | [] => Ok (true, st)
    | ready :: later => Ok (ready, with_polls later st)
    end.

(** [getchar()]: the next byte of the stream as an [unsigned char] converted
    to [int], or [EOF] when the stream is at its end.  It does not call
    [select]. *)
Definition getchar : M Z :=
  fun st =>
    match stdin st with
    | [] => Ok (EOF, st)
    | c :: rest => Ok (to_uchar c, with_stdin rest st)
    end.

(** [putc(c, stdout)] *)
Definition putc (c : Z) : M unit :=
  fun st => Ok (tt, with_stdout (stdout st ++ [to_uchar c]) st).

(** Output of a whole byte sequence ([printf] of a literal, [puts]). *)
Definition put_bytes (bs : list Z) : M unit :=
  fun st => Ok (tt, with_stdout (stdout st ++ bs) st).

(** ** Memory access procedures *)

(** [void mem_write(uint16_t address, uint16_t value)] *)
Definition mem_write (address value : Z) : M unit :=
  mem_store address value.

(** [uint16_t mem_read(uint16_t address)] *)
Definition mem_read (address : Z) : M Z :=
  do (if address =? MR_KBSR then
        let* key := check_key in
        if key then
          do mem_store MR_KBSR (wrap16 (Z.shiftl 1 15));
          let* c := getchar in
          mem_store MR_KBDR (wrap16 c)
        else
          mem_store MR_KBSR 0
      else ret tt);
  mem_load address.

(** ** CPU procedures *)

(** [uint16_t sign_extend(uint16_t x, int num_bits)].  The operands of the
    shifts and of [|=] are promoted to [int]; the assignment converts back
    to [uint16_t]. *)
Definition sign_extend (x num_bits : Z) : Z :=
  if c_true (Z.land (Z.shiftr x (num_bits - 1)) 1) then
    wrap16 (Z.lor x (int32 (Z.shiftl 0xFFFF num_bits)))
  else x.

(** [void update_flags(uint16_t register_)] *)
Definition update_flags (register_ : Z) : M unit :=
  let* v := get_reg register_ in
  if v =? 0 then set_reg R_COND FLG_ZRO
  else if c_true (Z.shiftr v 15) then set_reg R_COND FLG_NEG
  else set_reg R_COND FLG_POS.

(** [void add(uint16_t *instruction)] *)
Definition add (instruction : Z) : M unit :=
  let register0 := Z.land (Z.shiftr instruction 9) 0x7 in
  let register1 := Z.land (Z.shiftr instruction 6) 0x7 in
  let immediate_flag := Z.land (Z.shiftr instruction 5) 0x1 in
  do (if c_true immediate_flag then
        let imm5 := sign_extend (Z.land instruction 0x1F) 5 in
        let* a := get_reg register1 in
        set_reg register0 (wrap16 (a + imm5))
      else
        let register2 := Z.land instruction 0x7 in
        let* a := get_reg register1 in
        let* b := get_reg register2 in
        set_reg register0 (wrap16 (a + b)));
  update_flags register0.

(** [void ldi(uint16_t *instruction)] *)
Definition ldi (instruction : Z) : M unit :=
  let register0 := Z.land (Z.shiftr instruction 9) 0x7 in
  let pc_offset := sign_extend (Z.land instruction 0x1FF) 9 in
  let* pc := get_reg R_PC in
  let* pointer := mem_read (wrap16 (pc + pc_offset)) in
  let* v := mem_read pointer in
  do set_reg register0 v;
  update_flags register0.

(** [void and(uint16_t *instruction)] *)
Definition and (instruction : Z) : M unit :=
  let register0 := Z.land (Z.shiftr instruction 9) 0x7 in
  let register1 := Z.land (Z.shiftr instruction 6) 0x7 in
  let immediate_flag := Z.land (Z.shiftr instruction 5) 0x1 in
  do (if c_true immediate_flag then
        let imm5 := sign_extend (Z.land instruction 0x1F) 5 in
        let* a := get_reg register1 in
        set_reg register0 (wrap16 (Z.land a imm5))
      else
        let register2 := Z.land instruction 0x7 in
        let* a := get_reg register1 in
        let* b := get_reg register2 in
        set_reg register0 (wrap16 (Z.land a b)));
  update_flags register0.

(** [void not(uint16_t *instruction)] *)
Definition not (instruction : Z) : M unit :=
  let register0 := Z.land (Z.shiftr instruction 9) 0x7 in
  let register1 := Z.land (Z.shiftr instruction 6) 0x7 in
  let* a := get_reg register1 in
  do set_reg register0 (wrap16 (Z.lnot a));
  update_flags register0.

(** [void br(uint16_t *instruction)] *)
Definition br (instruction : Z) : M unit :=
  let pc_offset := sign_extend (Z.land instruction 0x1FF) 9 in
  let cond_flag := Z.land (Z.shiftr instruction 9) 0x7 in
  let* cond := get_reg R_COND in
  if c_true (Z.land cond_flag cond) then
    let* pc := get_reg R_PC in
    set_reg R_PC (wrap16 (pc + pc_offset))
  else ret tt.

(** [void jmp(uint16_t *instruction)] *)
Definition jmp (instruction : Z) : M unit :=
  let register1 := Z.land (Z.shiftr instruction 6) 0x7 in
  let* target := get_reg register1 in
  set_reg R_PC target.

(** [void jsr(uint16_t *instruction)] *)
Definition jsr (instruction : Z) : M unit :=
  let long_flag := Z.land (Z.shiftr instruction 11) 1 in
  let* pc := get_reg R_PC in
  do set_reg R7 pc;
  if c_true long_flag then
    let long_pc_offset := sign_extend (Z.land instruction 0x7FF) 11 in
    let* pc := get_reg R_PC in
    set_reg R_PC (wrap16 (pc + long_pc_offset))
  else
    let register1 := Z.land (Z.shiftr instruction 6) 0x7 in
    let* target := get_reg register1 in
    set_reg R_PC target.

(** [void ld(uint16_t *instruction)] *)
Definition ld (instruction : Z) : M unit :=
  let register0 := Z.land (Z.shiftr instruction 9) 0x7 in
  let pc_offset := sign_extend (Z.land instruction 0x1FF) 9 in
  let* pc := get_reg R_PC in
  let* v := mem_read (wrap16 (pc + pc_offset)) in
  do set_reg register0 v;
  update_flags register0.

(** [void ldr(uint16_t *instruction)] *)
Definition ldr (instruction : Z) : M unit :=
  let register0 := Z.land (Z.shiftr instruction 9) 0x7 in
  let register1 := Z.land (Z.shiftr instruction 6) 0x7 in
  let offset := sign_extend (Z.land instruction 0x3F) 6 in
  let* base := get_reg register1 in
  let* v := mem_read (wrap16 (base + offset)) in
  do set_reg register0 v;
  update_flags register0.

(** [void lea(uint16_t *instruction)] *)
Definition lea (instruction : Z) : M unit :=
  let register0 := Z.land (Z.shiftr instruction 9) 0x7 in
  let pc_offset := sign_extend (Z.land instruction 0x1FF) 9 in
  let* pc := get_reg R_PC in
  do set_reg register0 (wrap16 (pc + pc_offset));
  update_flags register0.

(** [void st(uint16_t *instruction)] *)
Definition st (instruction : Z) : M unit :=
  let register0 := Z.land (Z.shiftr instruction 9) 0x7 in
  let pc_offset := sign_extend (Z.land instruction 0x1FF) 9 in
  let* pc := get_reg R_PC in
  let* v := get_reg register0 in
  mem_write (wrap16 (pc + pc_offset)) v.

(** [void sti(uint16_t *instruction)] *)
Definition sti (instruction : Z) : M unit :=
  let register0 := Z.land (Z.shiftr instruction 9) 0x7 in
  let pc_offset := sign_extend (Z.land instruction 0x1FF) 9 in
  let* pc := get_reg R_PC in
  let* pointer := mem_read (wrap16 (pc + pc_offset)) in
  let* v := get_reg register0 in
  mem_write pointer v.

(** [void str(uint16_t *instruction)] *)
Definition str (instruction : Z) : M unit :=
  let register0 := Z.land (Z.shiftr instruction 9) 0x7 in
  let register1 := Z.land (Z.shiftr instruction 6) 0x7 in
  let offset := sign_extend (Z.land instruction 0x3F) 6 in
  let* base := get_reg register1 in
  let* v := get_reg register0 in
  mem_write (wrap16 (base + offset)) v.

(** ** TRAP routines *)

(** The loop of [trap_puts]: [char_] walks the array from its starting cell,
    one cell at a time and without wrapping; [cells] is the part of the
    array from [char_] on.  Walking off the array before a zero cell is
    found is an access outside its bounds. *)
Fixpoint puts_loop (cells : list Z) : M unit :=
  match cells with
  | [] => fun _ => Undefined
  | c :: rest =>
      if c_true c then
        do putc (to_char c);
        puts_loop rest
      else ret tt
  end.

(** [void trap_puts()]; [fflush] has no effect on the sequence of bytes
    written. *)
Definition trap_puts : M unit :=
  let* r0 := get_reg R0 in
  fun st => puts_loop (drop (Z.to_nat r0) (memory st)) st.

(** [void trap_getc()] *)
Definition trap_getc : M unit :=
  let* c := getchar in
  set_reg R0 (wrap16 c).

(** [void trap_out()] *)
Definition trap_out : M unit :=
  let* r0 := get_reg R0 in
  putc (to_char r0).

(** [void trap_in()] *)
Definition trap_in : M unit :=
  do put_bytes (bytes_of_string "Digite um caractere: ");
  let* c := getchar in
  let char_ := to_char c in
  do putc char_;
  set_reg R0 (wrap16 char_).

(** The loop of [trap_putsp], as [puts_loop]. *)
Fixpoint putsp_loop (cells : list Z) : M unit :=
  match cells with
  | [] => fun _ => Undefined
  | c :: rest =>
      if c_true c then
        let char1 := to_char (Z.land c 0xFF) in
        do putc char1;
        let char2 := to_char (Z.shiftr c 8) in
        do (if c_true char2 then putc char2 else ret tt);
        putsp_loop rest
      else ret tt
  end.

(** [void trap_putsp()] *)
Definition trap_putsp : M unit :=
  let* r0 := get_reg R0 in
  fun st => putsp_loop (drop (Z.to_nat r0) (memory st)) st.

(** Values of type [bool *] that occur in the program: the null pointer and
    the address of the local [running] of [main]. *)
Inductive bool_ptr : Type :=
  | null_ptr
  | addr_of_main_running.

(** The null pointer constant [false] converted to [bool *]. *)
Definition ptr_of_false : bool_ptr := null_ptr.

(** [void halt(bool **running)].  The argument designates an object of type
    [bool *]; the function is given the content of that object and returns
    its content after [*running = false], which stores into that object
    (not into a [bool]).  [puts] appends a newline. *)
Definition halt (pointee : bool_ptr) : M bool_ptr :=
  do put_bytes (bytes_of_string "HALT" ++ [10]);
  ret ptr_of_false.

(** [void trap(uint16_t *instruction, bool *running)].  [halt(&running)]
    passes the address of the parameter [running] of [trap] itself, so the
    store in [halt] changes that parameter, whose lifetime ends when [trap]
    returns; no case writes through the pointer it held. *)
Definition trap (instruction : Z) (running : bool_ptr) : M unit :=
  let code := Z.land instruction 0xFF in
  if code =? TRAP_GETC then trap_getc
  else if code =? TRAP_OUT then trap_out
  else if code =? TRAP_PUTS then trap_puts
  else if code =? TRAP_IN then trap_in
  else if code =? TRAP_PUTSP then trap_putsp
  else if code =? TRAP_HALT then
    let* running := halt running in
    ret tt
  else ret tt.

(** ** The interpreter loop of [main] *)

(** The [switch (opcode)]. *)
Definition execute (instruction : Z) : M unit :=
  let opcode := Z.shiftr instruction 12 in
  if opcode =? OP_ADD then add instruction
  else if opcode =? OP_AND then and instruction
  else if opcode =? OP_NOT then not instruction
  else if opcode =? OP_BR then br instruction
  else if opcode =? OP_JMP then jmp instruction
  else if opcode =? OP_JSR then jsr instruction
  else if opcode =? OP_LD then ld instruction
  else if opcode =? OP_LDI then ldi instruction
  else if opcode =? OP_LDR then ldr instruction
  else if opcode =? OP_LEA then lea instruction
  else if opcode =? OP_ST then st instruction
  else if opcode =? OP_STI then sti instruction
  else if opcode =? OP_STR then str instruction
  else if opcode =? OP_TRAP then trap instruction addr_of_main_running
  else if opcode =? OP_RES then abort
  else if opcode =? OP_RTI then abort
  else abort.

(** [uint16_t instruction = mem_read(registers[R_PC]++);] : the argument
    and its side effect are evaluated before the call. *)
Definition fetch : M Z :=
  let* pc := get_reg R_PC in
  do set_reg R_PC (wrap16 (pc + 1));
  mem_read pc.

(** One iteration of the body of [while (running)]. *)
Definition cycle : M unit :=
  let* instruction := fetch in
  execute instruction.

(** How a run of [main] from the loop on can end. *)
Inductive outcome : Type :=
  | Exited (st : machine)        (* the loop was left, [return 0] *)
  | Killed                       (* [abort()] *)
  | Undefined_behaviour
  | Still_running (st : machine). (* the given number of cycles was used up *)

(** [while (running) { ... } return 0;] for at most [fuel] iterations. *)
Fixpoint run (fuel : nat) (st : machine) : outcome :=
  if running st then
    match fuel with
    | O => Still_running st
    | S fuel' =>
        match cycle st with
        | Ok (_, st') => run fuel' st'
        | Aborted => Killed
        | Undefined => Undefined_behaviour
        end
    end
  else Exited st.

(** The state in which [main] enters the loop: [image] is the content of
    [memory] left by the loader, the registers are the zero-initialised
    global array with [registers[R_PC] = PC_START], [running] is [true].
    [input] is the stream on standard input, here on a descriptor that is
    readable for good; [with_polls] gives the start on any other one. *)
Definition boot (image input : list Z) : machine :=
  {| memory := image;
     registers := <[Z.to_nat R_PC := PC_START]> (replicate (Z.to_nat R_COUNT) 0);
     running := true;
     stdin := input;
     polls := [];
     stdout := [] |}.

(** The zero-initialised [memory] array. *)
Definition blank_memory : list Z := replicate (Z.to_nat UINT16_MAX) 0.

(** The states the machine can be in at the head of the loop; the loader
    leaves [uint16_t] values in the array. *)
Inductive reachable : machine -> Prop :=
  | reachable_boot image input answers :
      length image = Z.to_nat UINT16_MAX ->
      Forall u16 image ->
      reachable (with_polls answers (boot image input))
  | reachable_cycle st u st' :
      reachable st ->
      running st = true ->
      cycle st = Ok (u, st') ->
      reachable st'.

(** ** Image loader and start of [main] *)

(** [uint16_t swap16(uint16_t x)]; the shifts are computed in [int]. *)
Definition swap16 (x : Z) : Z :=
  wrap16 (Z.lor (Z.shiftl x 8) (Z.shiftr x 8)).

(** What [fread(ptr, sizeof(uint16_t), count, file)] delivers from the bytes
    left in the stream: at most [count] items, each made of two bytes in the
    byte order of the host (little-endian).  A single byte before the end
    of the file is a partial element, whose value is indeterminate: no
    result. *)
Fixpoint fread_u16 (count : nat) (bytes : list Z) : option (list Z) :=
  match count with
  | O => Some []
  | S count' =>
      match bytes with
      | [] => Some []
      | [_] => None
      | b0 :: b1 :: rest =>
          match fread_u16 count' rest with
          | Some items => Some ((to_uchar b0 + 256 * to_uchar b1) :: items)
          | None => None
          end
      end
  end.

(** The items of [fread] stored from [p[0]] on; [p] is an index into the
    array. *)
Fixpoint store_items (p : nat) (items mem : list Z) : option (list Z) :=
  match items with
  | [] => Some mem
  | x :: items' =>
      match mem !! p with
      | Some _ => store_items (S p) items' (<[p := x]> mem)
      | None => None
      end
  end.

(** [while (read-- > 0) { *p = swap16( *p); ++p; }] *)
Fixpoint swap_loop (read p : nat) (mem : list Z) : option (list Z) :=
  match read with
  | O => Some mem
  | S read' =>
      match mem !! p with
      | Some v => swap_loop read' (S p) (<[p := swap16 v]> mem)
      | None => None
      end
  end.

(** [void read_image_file(FILE* file)], on the bytes of the file and the
    content of [memory].  No result when the file has no complete first
    item ([origin] stays indeterminate), when [fread] meets a partial
    element, or when a store leaves the array. *)
Definition read_image_file (file mem : list Z) : option (list Z) :=
  match file with
  | b0 :: b1 :: rest =>
      let origin := swap16 (to_uchar b0 + 256 * to_uchar b1) in
      let max_read := wrap16 (UINT16_MAX - origin) in
      match fread_u16 (Z.to_nat max_read) rest with
      | Some items =>
          match store_items (Z.to_nat origin) items mem with
          | Some mem' => swap_loop (length items) (Z.to_nat origin) mem'
          | None => None
          end
      | None => None
      end
  | _ => None
  end.

(** [int read_image(const char* image_path)]; [file] is what [fopen] finds
    at the path, [None] when the file cannot be opened.  The result is the
    returned [int] and the content of [memory]. *)
Definition read_image (file : option (list Z)) (mem : list Z)
  : option (Z * list Z) :=
  match file with
  | None => Some (0, mem)
  | Some bytes =>
      match read_image_file bytes mem with
      | Some mem' => Some (1, mem')
      | None => None
      end
  end.

(** The loop of [main] over [argv[1]], ..., each argument given by its path
    and by what [fopen] finds there: the path of the first image that
    [read_image] could not load, or the content of [memory] after all of
    them. *)
Fixpoint load_images (args : list (string * option (list Z))) (mem : list Z)
  : option (string + list Z) :=
  match args with
  | [] => Some (inr mem)
  | (path, file) :: args' =>
      match read_image file mem with
      | Some (r, mem') =>
          if c_true r then load_images args' mem' else Some (inl path)
      | None => None
      end
  end.

(** How the process ends, or where it is after the given number of
    cycles. *)
Inductive main_result : Type :=
  | Returned (code : Z) (s : machine)      (* [return] from [main] *)
  | Exit_called (code : Z) (out : list Z)  (* [exit(code)], with the output *)
  | Main_killed                            (* [abort()] *)
  | Main_undefined
  | Main_running (s : machine).

(** The two messages of [main]. *)
Definition usage_message : list Z :=
  bytes_of_string "Forma de usar:" ++ [10] ++
  bytes_of_string " ./lc3 /path/to/image.obj " ++ [10].
Definition load_failure_message (path : string) : list Z :=
  bytes_of_string "falha ao carregar a imagem: " ++ bytes_of_string path ++ [10].

(** [void handle_interrupt(int signal)], the handler that [main] installs
    for [SIGINT]: it puts the terminal settings back, writes a line feed and
    ends the process with [exit(-2)].  [st] is the machine at the moment of
    the signal. *)
Definition handle_interrupt (st : machine) : main_result :=
  Exit_called (-2) (stdout st ++ [10]).

(** What [main] does with the way its loop went: [return 0] after the loop,
    and [otherwise] when the loop is still running. *)
Definition end_of_run (o : outcome) (otherwise : machine -> main_result)
  : main_result :=
  match o with
  | Exited s => Returned 0 s
  | Killed => Main_killed
  | Undefined_behaviour => Main_undefined
  | Still_running s => otherwise s
  end.

(** [int main(int argc, const char *argv[])]: [args] are [argv[1]] to
    [argv[argc - 1]], [input] the stream on standard input and [answers]
    what [select] finds on its descriptor.  [sigint] is the interrupt from
    outside: [Some n] when [SIGINT] is delivered after [signal(SIGINT,
    handle_interrupt)] and [n] complete iterations of the loop, [None] when
    it is not delivered.  A signal that arrives inside an iteration ends the
    process in the same way, with the output written up to there; one that
    arrives before the handler is installed is dealt with as the parent
    process arranged, which this program does not decide.  The terminal
    settings that [disable_input_buffering] changes have no part in the
    state. *)
Definition main (args : list (string * option (list Z))) (input : list Z)
    (answers : list bool) (sigint : option nat) (fuel : nat) : main_result :=
  match args with
  | [] => Exit_called 2 usage_message
  | _ :: _ =>
      match load_images args blank_memory with
      | None => Main_undefined
      | Some (inl path) => Exit_called 1 (load_failure_message path)
      | Some (inr mem) =>
          let st := with_polls answers (boot mem input) in
          match sigint with
          | Some n =>
              if (n <=? fuel)%nat then end_of_run (run n st) handle_interrupt
              else end_of_run (run fuel st) Main_running
          | None => end_of_run (run fuel st) Main_running
          end
      end
  end.

(** ** Vocabulary of the properties *)

(** The integer denoted by the bit pattern [y] read as an [n]-bit
    two's-complement number. *)
Definition twos_complement (n y : Z) : Z :=
  if y <? 2 ^ (n - 1) then y else y - 2 ^ n.

(** Content of register [r] and of memory cell [a]. *)
Definition reg (r : Z) (s : machine) : Z := registers s !!! Z.to_nat r.
Definition cell (a : Z) (s : machine) : option Z := memory s !! Z.to_nat a.

(** What the next call of [select] reports: whether the descriptor of
    standard input is readable. *)
Definition readable (s : machine) : bool :=
  match polls s with [] => true | ready :: _ => ready end.

(** What the next call of [getchar] returns, converted to [uint16_t]: the
    next byte of the stream, or [(uint16_t) EOF] at its end. *)
Definition next_char (s : machine) : Z :=
  wrap16 (match stdin s with [] => EOF | c :: _ => to_uchar c end).

(** The flag that classifies a 16-bit result: zero, bit 15 set, or neither. *)
Definition flag_of (v : Z) : Z :=
  if v =? 0 then FLG_ZRO
  else if Z.testbit v 15 then FLG_NEG
  else FLG_POS.

(** Exactly one of the three flags. *)
Definition one_flag (c : Z) : Prop :=
  c = FLG_POS \/ c = FLG_ZRO \/ c = FLG_NEG.

(** No flag, or exactly one. *)
Definition at_most_one_flag (c : Z) : Prop := c = 0 \/ one_flag c.

(** Both arrays have their declared size and hold [uint16_t] values. *)
Definition well_formed (s : machine) : Prop :=
  well_sized s /\ Forall u16 (memory s) /\ Forall u16 (registers s).

(** A well-formed machine whose condition register and execution flag
    satisfy [S]. *)
Definition inv (S : Z -> bool -> Prop) (s : machine) : Prop :=
  well_formed s /\ S (reg R_COND s) (running s).

(** [m] maintains [inv S] and, when it completes, returns a value in [Q]. *)
Definition keeps (S : Z -> bool -> Prop) {A} (m : M A) (Q : A -> Prop) : Prop :=
  forall s, inv S s ->
    match m s with
    | Ok (a, s') => inv S s' /\ Q a
    | Aborted | Undefined => True
    end.

(** The fields of an instruction word, by position. *)
Definition field (instruction lo width : Z) : Z :=
  (instruction / 2 ^ lo) mod 2 ^ width.

(** The opcodes whose handlers end with [update_flags]. *)
Definition updates_flags (opcode : Z) : bool :=
  (opcode =? OP_ADD) || (opcode =? OP_AND) || (opcode =? OP_NOT) ||
  (opcode =? OP_LD) || (opcode =? OP_LDI) || (opcode =? OP_LDR) ||
  (opcode =? OP_LEA).

(** When [m] completes from a well-formed machine, the condition register
    is the flag of the content of register [r]. *)
Definition sets_flags_of (r : Z) {A} (m : M A) : Prop :=
  forall s, well_formed s ->
    match m s with
    | Ok (_, s') => reg R_COND s' = flag_of (reg r s')
    | Aborted | Undefined => True
    end.

(** ** Example programs *)

(** An image whose first instruction is [TRAP HALT]. *)
Definition halt_image : list Z :=
  <[Z.to_nat PC_START := 0xF025]> blank_memory.

(** [AND R0, R0, #0] followed by [JSR] with offset 0. *)
Definition jsr_image : list Z :=
  <[Z.to_nat 0x3001 := 0x4800]> (<[Z.to_nat 0x3000 := 0x5020]> blank_memory).

(** [ADD R1, R0, #5] followed by [ADD R1, R1, #-1]. *)
Definition add_image : list Z :=
  <[Z.to_nat 0x3001 := 0x127F]> (<[Z.to_nat 0x3000 := 0x1225]> blank_memory).

(** [LEA R0, +2], [TRAP PUTS], [TRAP HALT], then the words of "Hi" and the
    terminating zero. *)
Definition puts_image : list Z :=
  <[Z.to_nat 0x3004 := 105]> (<[Z.to_nat 0x3003 := 72]>
  (<[Z.to_nat 0x3002 := 0xF025]> (<[Z.to_nat 0x3001 := 0xF022]>
  (<[Z.to_nat 0x3000 := 0xE002]> blank_memory)))).

(** The machine at the head of the loop with a blank memory, and with one
    key ([A]) on the input stream; the descriptor is readable. *)
Definition blank_machine : machine := boot blank_memory [].
Definition key_waiting : machine := boot blank_memory [65].

(** The input at its end: the stream has no byte left, and [select] reports
    the descriptor readable, as it does at end of file. *)
Definition at_end_of_input : machine := with_polls [true] blank_machine.

(** Two keys ([x] and [A]) that arrive together, with nothing after them on
    the descriptor: the first [getchar] takes both into the buffer of the
    stream, and [select] then reports that a [read] would block. *)
Definition two_keys : machine := with_polls [false] (boot blank_memory [120; 65]).

(** One key typed, then nothing: [select] finds the descriptor readable at
    its first call and idle at the second. *)
Definition key_then_idle : machine := with_polls [true; false] key_waiting.

(** [blank_machine] after [ADD R0, R0, #5] has been executed. *)
Definition after_add : machine :=
  with_registers [5; 0; 0; 0; 0; 0; 0; 0; PC_START; FLG_POS] blank_machine.

(** ** Vocabulary of the properties of the loader and of the handlers *)

(** The image file format: the origin, then the words, each as two bytes,
    most significant first. *)
Definition be_bytes (w : Z) : list Z := [w / 256; w mod 256].
Definition image_file (origin : Z) (words : list Z) : list Z :=
  be_bytes origin ++ flat_map be_bytes words.

(** The number of cells from [origin] to the end of [memory]. *)
Definition room (origin : Z) : nat := Z.to_nat (UINT16_MAX - origin).

(** The effective addresses of the addressing modes. *)
Definition pc_relative (instruction : Z) (s : machine) : Z :=
  wrap16 (reg R_PC s + twos_complement 9 (field instruction 0 9)).
Definition base_offset (instruction : Z) (s : machine) : Z :=
  wrap16 (reg (field instruction 6 3) s
          + twos_complement 6 (field instruction 0 6)).

(** The bytes that [trap_putsp] writes for one cell. *)
Definition packed_chars (c : Z) : list Z :=
  if c / 256 mod 256 =? 0 then [c mod 256] else [c mod 256; c / 256 mod 256].

(** The opcodes whose handlers use the registers only. *)
Definition register_only (opcode : Z) : bool :=
  (opcode =? OP_ADD) || (opcode =? OP_AND) || (opcode =? OP_NOT) ||
  (opcode =? OP_BR) || (opcode =? OP_JMP) || (opcode =? OP_JSR) ||
  (opcode =? OP_LEA).

(** [m] never calls [abort()]. *)
Definition never_aborts {A} (m : M A) : Prop := forall s, m s <> Aborted.

(** Sample data for the loader. *)
Definition sample_words : list Z := [0xF025; 0x0041].
Definition other_words : list Z := [0x1234].

(** A command line that names one image file, whose only word is
    [TRAP HALT] at 0x3000. *)
Definition halt_args : list (string * option (list Z)) :=
  [("halt.obj"%string, Some (image_file 0x3000 [0xF025]))].

(** [blank_machine] after [ST R0, +5]. *)
Definition after_store : machine :=
  with_memory (<[Z.to_nat 0x3005 := 0]> blank_memory) blank_machine.

(** A machine whose cell 0x3005 points to the keyboard status register,
    with one key waiting. *)
Definition poll_machine : machine :=
  boot (<[Z.to_nat 0x3005 := MR_KBSR]> blank_memory) [65].

(** A machine with R0 on the string of [puts_image]. *)
Definition puts_machine : machine :=
  with_registers (<[Z.to_nat R0 := 0x3003]> (registers (boot puts_image [])))
    (boot puts_image []).

(** A machine with R0 on the packed string "Hi!" at 0x4000. *)
Definition putsp_machine : machine :=
  with_registers (<[Z.to_nat R0 := 0x4000]> (registers blank_machine))
    (boot (<[Z.to_nat 0x4001 := 0x0021]> (<[Z.to_nat 0x4000 := 0x6948]> blank_memory)) []).

(** A machine with R0 on the last cell of the array, which is not zero. *)
Definition unterminated_machine : machine :=
  with_registers (<[Z.to_nat R0 := 0xFFFE]> (registers blank_machine))
    (boot (<[Z.to_nat 0xFFFE := 65]> blank_memory) []).

(** The words of the two sample strings. *)
Definition hi_words : list Z := [72; 105].
Definition packed_words : list Z := [0x6948; 0x0021].

(** [m] leaves the program counter as it was. *)
Definition keeps_pc {A} (m : M A) : Prop :=
  forall s a s', m s = Ok (a, s') -> reg R_PC s' = reg R_PC s.

(** The machine that starts on [add_image], after the fetch of its first
    instruction, and after the execution of that instruction. *)
Definition add_start : machine := boot add_image [].
Definition add_fetched : machine :=
  with_registers [0; 0; 0; 0; 0; 0; 0; 0; 0x3001; 0] add_start.
Definition add_done : machine :=
  with_registers [0; 5; 0; 0; 0; 0; 0; 0; 0x3001; FLG_POS] add_start.

(** The size of [memory] is not to be expanded into a unary number. *)
Arguments UINT16_MAX : simpl never.
Arguments blank_memory : simpl never.
Arguments after_store : simpl never.

(** * Properties *)

(** ** Integer conversions and bit fields *)

Lemma wrap16_u16 x : u16 (wrap16 x).
Proof. unfold u16, wrap16. apply Z.mod_pos_bound. lia. Qed.

Lemma wrap16_small x : u16 x -> wrap16 x = x.
Proof. unfold u16, wrap16. intros. apply Z.mod_small. lia. Qed.

Lemma land_mask x n : 0 <= n -> Z.land x (Z.ones n) = x mod 2 ^ n.
Proof. apply Z.land_ones. Qed.

Lemma land_field instruction lo width :
  0 <= lo -> 0 <= width ->
  Z.land (Z.shiftr instruction lo) (Z.ones width) = field instruction lo width.
Proof.
  intros. unfold field. rewrite Z.land_ones, Z.shiftr_div_pow2 by lia.
  reflexivity.
Qed.

Lemma field_bound instruction lo width :
  0 <= width -> 0 <= field instruction lo width < 2 ^ width.
Proof. intros. apply Z.mod_pos_bound. apply Z.pow_pos_nonneg; lia. Qed.

Lemma land7_bound x : 0 <= Z.land x 0x7 < 8.
Proof.
  change 0x7 with (Z.ones 3). rewrite Z.land_ones by lia.
  apply Z.mod_pos_bound. reflexivity.
Qed.

Lemma land_u16 a b : u16 b -> u16 (Z.land a b).
Proof.
  unfold u16. intros Hb. split.
  - apply Z.land_nonneg. lia.
  - assert (Hs : Z.land a b = Z.land a b mod 2 ^ 16).
    { apply Z.bits_inj'. intros i Hi.
      destruct (Z.lt_ge_cases i 16).
      - rewrite Z.mod_pow2_bits_low by lia. reflexivity.
      - rewrite Z.mod_pow2_bits_high by lia. rewrite Z.land_spec.
        rewrite <- (Z.mod_small b (2 ^ 16)) by (change (2 ^ 16) with 65536; lia).
        rewrite Z.mod_pow2_bits_high by lia. apply andb_false_r. }
    rewrite Hs. apply Z.mod_pos_bound. reflexivity.
Qed.

Lemma land_disjoint y k n :
  0 <= n -> 0 <= y < 2 ^ n -> Z.land y (k * 2 ^ n) = 0.
Proof.
  intros Hn Hy. apply Z.bits_inj'. intros i Hi.
  rewrite Z.land_spec, Z.bits_0.
  destruct (Z.lt_ge_cases i n) as [Hlt | Hge].
  - rewrite Z.mul_pow2_bits_low by lia. apply andb_false_r.
  - rewrite <- (Z.mod_small y (2 ^ n)) by lia.
    rewrite Z.mod_pow2_bits_high by lia. reflexivity.
Qed.

Lemma lor_disjoint y k n :
  0 <= n -> 0 <= y < 2 ^ n -> Z.lor y (k * 2 ^ n) = y + k * 2 ^ n.
Proof.
  intros Hn Hy. rewrite <- Z.add_lor_land.
  rewrite land_disjoint by assumption. lia.
Qed.

(** The test of [sign_extend] reads the top bit of an [n]-bit pattern. *)
Lemma sign_bit y n :
  1 <= n -> 0 <= y < 2 ^ n ->
  Z.land (Z.shiftr y (n - 1)) 1 = if y <? 2 ^ (n - 1) then 0 else 1.
Proof.
  intros Hn Hy.
  change 1 with (Z.ones 1) at 2. rewrite Z.land_ones by lia.
  rewrite Z.shiftr_div_pow2 by lia. change (2 ^ 1) with 2.
  assert (Hp : 2 ^ n = 2 * 2 ^ (n - 1)).
  { rewrite <- Z.pow_succ_r by lia. f_equal. lia. }
  assert (Hpos : 0 < 2 ^ (n - 1)) by (apply Z.pow_pos_nonneg; lia).
  destruct (Z.ltb_spec y (2 ^ (n - 1))).
  - rewrite Z.div_small by lia. reflexivity.
  - assert (y / 2 ^ (n - 1) = 1) as ->; [|reflexivity].
    symmetry. apply (Z.div_unique_pos y (2 ^ (n - 1)) 1 (y - 2 ^ (n - 1))); lia.
Qed.

(** The mask [0xFFFF << n], computed in [int]: a multiple of [2 ^ n] whose
    low 16 bits are ones from bit [n] up (for [n = 16] the shift overflows
    [int] and wraps to [-65536]). *)
Lemma int32_shifted_mask n :
  1 <= n <= 16 ->
  exists k, int32 (Z.shiftl 0xFFFF n) = k * 2 ^ n /\
            wrap16 (k * 2 ^ n) = 65536 - 2 ^ n.
Proof.
  intros Hn.
  assert (Hc : n = 1 \/ n = 2 \/ n = 3 \/ n = 4 \/ n = 5 \/ n = 6 \/ n = 7 \/
               n = 8 \/ n = 9 \/ n = 10 \/ n = 11 \/ n = 12 \/ n = 13 \/
               n = 14 \/ n = 15 \/ n = 16) by lia.
  destruct (Z.eq_dec n 16) as [-> | Hne].
  - exists (-1). split; reflexivity.
  - exists 65535.
    repeat (destruct Hc as [-> | Hc]; [split; reflexivity|]). lia.
Qed.

Lemma sign_extend_spec y n :
  1 <= n <= 16 -> 0 <= y < 2 ^ n ->
  sign_extend y n = wrap16 (twos_complement n y).
Proof.
  intros Hn Hy. unfold sign_extend, twos_complement, c_true.
  rewrite sign_bit by lia.
  assert (Hle : 2 ^ n <= 2 ^ 16) by (apply Z.pow_le_mono_r; lia).
  change (2 ^ 16) with 65536 in Hle.
  destruct (Z.ltb_spec y (2 ^ (n - 1))); simpl.
  - symmetry. apply wrap16_small. unfold u16. lia.
  - destruct (int32_shifted_mask n Hn) as (k & -> & Hk).
    rewrite lor_disjoint by lia.
    unfold wrap16 in *. rewrite Z.add_mod, Hk by lia.
    rewrite (Z.mod_small y) by lia.
    replace (y + (65536 - 2 ^ n)) with (y - 2 ^ n + 1 * 65536) by lia.
    apply Z.mod_add. lia.
Qed.

Lemma twos_complement_range n y :
  1 <= n -> 0 <= y < 2 ^ n ->
  - 2 ^ (n - 1) <= twos_complement n y < 2 ^ (n - 1).
Proof.
  intros Hn Hy. unfold twos_complement.
  assert (Hp : 2 ^ n = 2 * 2 ^ (n - 1)).
  { rewrite <- Z.pow_succ_r by lia. f_equal. lia. }
  destruct (Z.ltb_spec y (2 ^ (n - 1))); lia.
Qed.

Lemma twos_complement_wrap16 s :
  -32768 <= s < 32768 -> twos_complement 16 (wrap16 s) = s.
Proof.
  intros Hs. unfold twos_complement, wrap16.
  change (2 ^ (16 - 1)) with 32768. change (2 ^ 16) with 65536.
  destruct (Z.neg_nonneg_cases s).
  - assert (Hm : s mod 65536 = s + 65536).
    { replace s with (s + 65536 + (-1) * 65536) at 1 by lia.
      rewrite Z.mod_add by lia. apply Z.mod_small. lia. }
    rewrite Hm. destruct (Z.ltb_spec (s + 65536) 32768); lia.
  - rewrite Z.mod_small by lia.
    destruct (Z.ltb_spec s 32768); lia.
Qed.

Lemma sign_extend_u16 x n : u16 x -> u16 (sign_extend x n).
Proof.
  intros Hx. unfold sign_extend.
  destruct (c_true _); [apply wrap16_u16 | assumption].
Qed.

(** C5. For every 16-bit [v] and every width [n] from 1 to 16,
    [sign_extend] of the low [n] bits of [v] is the two's-complement value
    of these bits, represented on 16 bits (first conjunct), so reading the
    result back as a 16-bit signed number gives that value (second
    conjunct); and [sign_extend v 16 = v]. *)
Theorem sign_extend_twos_complement (v n : Z) :
  0 <= v < 65536 -> 1 <= n <= 16 ->
  sign_extend (Z.land v (Z.ones n)) n
    = wrap16 (twos_complement n (Z.land v (Z.ones n)))
  /\ twos_complement 16 (sign_extend (Z.land v (Z.ones n)) n)
    = twos_complement n (Z.land v (Z.ones n))
  /\ sign_extend v 16 = v.
Proof.
  intros Hv Hn. rewrite land_mask by lia.
  assert (Hy : 0 <= v mod 2 ^ n < 2 ^ n).
  { apply Z.mod_pos_bound. apply Z.pow_pos_nonneg; lia. }
  assert (Hle : 2 ^ (n - 1) <= 2 ^ 15) by (apply Z.pow_le_mono_r; lia).
  change (2 ^ 15) with 32768 in Hle.
  pose proof (twos_complement_range n (v mod 2 ^ n) ltac:(lia) Hy) as Hr.
  rewrite sign_extend_spec by lia.
  split; [reflexivity | split].
  - apply twos_complement_wrap16. lia.
  - rewrite sign_extend_spec by (change (2 ^ 16) with 65536; lia).
    unfold twos_complement, wrap16.
    change (2 ^ (16 - 1)) with 32768. change (2 ^ 16) with 65536.
    destruct (Z.ltb_spec v 32768).
    + apply Z.mod_small. lia.
    + replace (v - 65536) with (v + (-1) * 65536) by lia.
      rewrite Z.mod_add by lia. apply Z.mod_small. lia.
Qed.

Lemma sign_extend_twos_complement_witness :
  0 <= 0x1234 < 65536 /\ 1 <= 5 <= 16 /\
  (sign_extend (Z.land 0x1234 (Z.ones 5)) 5
     = wrap16 (twos_complement 5 (Z.land 0x1234 (Z.ones 5)))
   /\ twos_complement 16 (sign_extend (Z.land 0x1234 (Z.ones 5)) 5)
     = twos_complement 5 (Z.land 0x1234 (Z.ones 5))
   /\ sign_extend 0x1234 16 = 0x1234).
Proof.
  split; [lia | split; [lia | apply (sign_extend_twos_complement 0x1234 5); lia]].
Defined.

(** ** Reasoning about machine computations *)

Lemma bind_Ok {A B} (m : M A) (f : A -> M B) s b s'' :
  bind m f s = Ok (b, s'') <->
  exists a s', m s = Ok (a, s') /\ f a s' = Ok (b, s'').
Proof.
  unfold bind. split.
  - destruct (m s) as [[a s'] | |]; [eauto | discriminate | discriminate].
  - intros (a & s' & -> & Hf). exact Hf.
Qed.

Lemma reg_with_registers r regs s :
  reg r (with_registers regs s) = regs !!! Z.to_nat r.
Proof. reflexivity. Qed.

Lemma reg_set_eq r v s :
  0 <= r < R_COUNT -> length (registers s) = Z.to_nat R_COUNT ->
  reg r (with_registers (<[Z.to_nat r := v]> (registers s)) s) = v.
Proof.
  intros Hr Hlen. unfold reg; simpl.
  apply list_lookup_total_insert_eq. rewrite Hlen. unfold R_COUNT in *. lia.
Qed.

Lemma reg_set_ne r r' v s :
  0 <= r -> 0 <= r' -> r <> r' ->
  reg r' (with_registers (<[Z.to_nat r := v]> (registers s)) s) = reg r' s.
Proof.
  intros Hr Hr' Hne. unfold reg; simpl.
  apply list_lookup_total_insert_ne. lia.
Qed.

Lemma well_formed_reg r s :
  well_formed s -> 0 <= r < R_COUNT -> u16 (reg r s).
Proof.
  intros (Hsz & _ & Hregs) Hr. unfold reg.
  apply Forall_lookup_total_1; [assumption|].
  destruct Hsz as [_ ->]. unfold R_COUNT in *. lia.
Qed.

Section Invariant.

Variable S : Z -> bool -> Prop.
Hypothesis S_flags : forall c c' b, S c b -> one_flag c' -> S c' b.

Lemma keeps_ret {A} (a : A) (Q : A -> Prop) : Q a -> keeps S (ret a) Q.
Proof. intros Ha s Hs. simpl. auto. Qed.

Lemma keeps_bind {A B} (m : M A) (f : A -> M B) Q R :
  keeps S m Q -> (forall a, Q a -> keeps S (f a) R) -> keeps S (bind m f) R.
Proof.
  intros Hm Hf s Hs. unfold bind. specialize (Hm s Hs).
  destruct (m s) as [[a s'] | |]; [|exact I|exact I].
  destruct Hm as [Hs' Ha]. exact (Hf a Ha s' Hs').
Qed.

Lemma keeps_weaken {A} (m : M A) (Q Q' : A -> Prop) :
  keeps S m Q -> (forall a, Q a -> Q' a) -> keeps S m Q'.
Proof.
  intros Hm HQ s Hs. specialize (Hm s Hs).
  destruct (m s) as [[a s'] | |]; [|exact I|exact I].
  destruct Hm. auto.
Qed.

Lemma keeps_abort {A} (Q : A -> Prop) : keeps S abort Q.
Proof. intros s Hs. exact I. Qed.

Lemma keeps_get_reg r : 0 <= r < R_COUNT -> keeps S (get_reg r) u16.
Proof.
  intros Hr s Hs. simpl. split; [assumption|].
  apply well_formed_reg; [apply Hs | assumption].
Qed.

Lemma keeps_set_reg r v :
  0 <= r < R_COND -> u16 v -> keeps S (set_reg r v) (fun _ => True).
Proof.
  intros Hr Hv s ((Hsz & Hmem & Hregs) & Hc). simpl.
  split; [|exact I]. split; [split; [|split]|].
  - destruct Hsz as [Hm Hl]. split; simpl; [assumption|].
    rewrite length_insert. assumption.
  - assumption.
  - simpl. apply Forall_insert; assumption.
  - rewrite reg_set_ne; [assumption | lia | unfold R_COND; lia | lia].
Qed.

Lemma keeps_set_cond c :
  one_flag c -> keeps S (set_reg R_COND c) (fun _ => True).
Proof.
  intros Hc s ((Hsz & Hmem & Hregs) & HS). simpl.
  split; [|exact I]. split; [split; [|split]|].
  - destruct Hsz as [Hm Hl]. split; simpl; [assumption|].
    rewrite length_insert. assumption.
  - assumption.
  - simpl. apply Forall_insert; [assumption|].
    destruct Hc as [-> | [-> | ->]]; unfold u16; vm_compute; intuition discriminate.
  - rewrite reg_set_eq; [eauto | unfold R_COND, R_COUNT; lia | apply Hsz].
Qed.

Lemma keeps_mem_load a : keeps S (mem_load a) u16.
Proof.
  intros s Hs. unfold mem_load.
  destruct (memory s !! Z.to_nat a) as [v|] eqn:Hv; [|exact I].
  split; [assumption|].
  destruct Hs as ((_ & Hmem & _) & _). exact (Forall_lookup_1 _ _ _ _ Hmem Hv).
Qed.

Lemma keeps_mem_store a v : u16 v -> keeps S (mem_store a v) (fun _ => True).
Proof.
  intros Hv s ((Hsz & Hmem & Hregs) & Hc). unfold mem_store.
  destruct (memory s !! Z.to_nat a); [|exact I].
  split; [|exact I]. split; [split; [|split]|]; simpl; try assumption.
  - destruct Hsz as [Hm Hl]. split; simpl; [|assumption].
    rewrite length_insert. assumption.
  - apply Forall_insert; assumption.
Qed.

Lemma keeps_check_key : keeps S check_key (fun _ => True).
Proof.
  intros s Hs. unfold check_key. destruct (polls s) as [|ready later].
  - split; [exact Hs | exact I].
  - split; [exact Hs | exact I].
Qed.

Lemma keeps_getchar : keeps S getchar (fun c => -1 <= c < 256).
Proof.
  intros s Hs. unfold getchar. destruct (stdin s) as [|c rest].
  - split; [assumption | unfold EOF; lia].
  - split; [exact Hs|]. unfold to_uchar.
    pose proof (Z.mod_pos_bound c 256). lia.
Qed.

Lemma keeps_putc c : keeps S (putc c) (fun _ => True).
Proof. intros s Hs. simpl. split; [exact Hs | exact I]. Qed.

Lemma keeps_put_bytes bs : keeps S (put_bytes bs) (fun _ => True).
Proof. intros s Hs. simpl. split; [exact Hs | exact I]. Qed.

End Invariant.

Create HintDb keeps.

(** Side conditions of the rules: register indices and 16-bit values. *)
Ltac side_condition :=
  first
    [ exact I
    | assumption
    | apply wrap16_u16
    | apply sign_extend_u16; apply land_u16; unfold u16; lia
    | apply land_u16; first [assumption | apply sign_extend_u16; apply land_u16; unfold u16; lia]
    | split; [apply land7_bound | eapply Z.lt_le_trans; [apply land7_bound | unfold R_COND, R_COUNT; lia]]
    | unfold u16, R0, R7, R_PC, R_COND, R_COUNT; lia
    | unfold one_flag; tauto ].

Ltac keeps_primitive :=
  first
    [ apply keeps_get_reg; side_condition
    | apply keeps_set_reg; side_condition
    | apply keeps_set_cond; [assumption | side_condition]
    | apply keeps_mem_load
    | apply keeps_mem_store; side_condition
    | apply keeps_check_key
    | apply keeps_getchar
    | apply keeps_putc
    | apply keeps_put_bytes
    | apply keeps_abort ].

Ltac keeps_auto :=
  lazymatch goal with
  | |- keeps _ (bind _ _) _ =>
      eapply keeps_bind; [keeps_auto | intros ? ?; keeps_auto]
  | |- keeps _ (if ?b then _ else _) _ => destruct b; keeps_auto
  | |- keeps _ (ret _) _ => apply keeps_ret; exact I
  | |- _ => first [keeps_primitive | eassumption | solve [auto with keeps] | idtac]
  end.

Section Handlers.

Variable S : Z -> bool -> Prop.
Hypothesis S_flags : forall c c' b, S c b -> one_flag c' -> S c' b.

Lemma keeps_mem_read a : keeps S (mem_read a) u16.
Proof. unfold mem_read. keeps_auto. Qed.

Lemma keeps_mem_write a v : u16 v -> keeps S (mem_write a v) (fun _ => True).
Proof. intros. unfold mem_write. keeps_auto. Qed.

Lemma keeps_update_flags r :
  0 <= r < R_COUNT -> keeps S (update_flags r) (fun _ => True).
Proof. intros. unfold update_flags. keeps_auto. Qed.

Hint Resolve keeps_mem_read : keeps.
Hint Extern 1 (keeps _ (mem_write _ _) _) =>
  apply keeps_mem_write; side_condition : keeps.
Hint Extern 1 (keeps _ (update_flags _) _) =>
  apply keeps_update_flags; side_condition : keeps.

Local Ltac handler h := intros; unfold h; cbv zeta; keeps_auto.

Lemma keeps_add i : keeps S (add i) (fun _ => True).
Proof. handler add. Qed.

Lemma keeps_and i : keeps S (and i) (fun _ => True).
Proof. handler and. Qed.

Lemma keeps_not i : keeps S (not i) (fun _ => True).
Proof. handler not. Qed.

Lemma keeps_br i : keeps S (br i) (fun _ => True).
Proof. handler br. Qed.

Lemma keeps_jmp i : keeps S (jmp i) (fun _ => True).
Proof. handler jmp. Qed.

Lemma keeps_jsr i : keeps S (jsr i) (fun _ => True).
Proof. handler jsr. Qed.

Lemma keeps_ld i : keeps S (ld i) (fun _ => True).
Proof. handler ld. Qed.

Lemma keeps_ldi i : keeps S (ldi i) (fun _ => True).
Proof. handler ldi. Qed.

Lemma keeps_ldr i : keeps S (ldr i) (fun _ => True).
Proof. handler ldr. Qed.

Lemma keeps_lea i : keeps S (lea i) (fun _ => True).
Proof. handler lea. Qed.

Lemma keeps_st i : keeps S (st i) (fun _ => True).
Proof. handler st. Qed.

Lemma keeps_sti i : keeps S (sti i) (fun _ => True).
Proof. handler sti. Qed.

Lemma keeps_str i : keeps S (str i) (fun _ => True).
Proof. handler str. Qed.

Lemma keeps_puts_loop cells : keeps S (puts_loop cells) (fun _ => True).
Proof.
  induction cells as [|c rest IH]; simpl.
  - intros s Hs. exact I.
  - keeps_auto.
Qed.

Lemma keeps_putsp_loop cells : keeps S (putsp_loop cells) (fun _ => True).
Proof.
  induction cells as [|c rest IH]; simpl.
  - intros s Hs. exact I.
  - cbv zeta. keeps_auto.
Qed.

Lemma keeps_trap_puts : keeps S trap_puts (fun _ => True).
Proof.
  unfold trap_puts. eapply keeps_bind; [keeps_auto|].
  intros r0 _ s Hs. apply keeps_puts_loop. assumption.
Qed.

Lemma keeps_trap_putsp : keeps S trap_putsp (fun _ => True).
Proof.
  unfold trap_putsp. eapply keeps_bind; [keeps_auto|].
  intros r0 _ s Hs. apply keeps_putsp_loop. assumption.
Qed.

Hint Resolve keeps_trap_puts keeps_trap_putsp : keeps.

Lemma keeps_trap_getc : keeps S trap_getc (fun _ => True).
Proof. handler trap_getc. Qed.

Lemma keeps_trap_out : keeps S trap_out (fun _ => True).
Proof. handler trap_out. Qed.

Lemma keeps_trap_in : keeps S trap_in (fun _ => True).
Proof. handler trap_in. Qed.

Lemma keeps_halt p : keeps S (halt p) (fun _ => True).
Proof. handler halt. Qed.

Hint Resolve keeps_trap_getc keeps_trap_out keeps_trap_in keeps_halt : keeps.

Lemma keeps_trap i p : keeps S (trap i p) (fun _ => True).
Proof. handler trap. Qed.

Hint Resolve keeps_add keeps_and keeps_not keeps_br keeps_jmp keeps_jsr
  keeps_ld keeps_ldi keeps_ldr keeps_lea keeps_st keeps_sti keeps_str
  keeps_trap : keeps.

Lemma keeps_execute i : keeps S (execute i) (fun _ => True).
Proof. handler execute. Qed.

Lemma keeps_fetch : keeps S fetch u16.
Proof. handler fetch. Qed.

Hint Resolve keeps_fetch keeps_execute : keeps.

Lemma keeps_cycle : keeps S cycle (fun _ => True).
Proof. handler cycle. Qed.

End Handlers.

(** ** The memory array and its bounds *)

Lemma cell_in_bounds a s :
  well_sized s -> 0 <= a < UINT16_MAX -> is_Some (cell a s).
Proof.
  intros [Hlen _] Ha. apply lookup_lt_is_Some_2. rewrite Hlen. lia.
Qed.

Lemma cell_out_of_bounds a s :
  well_sized s -> UINT16_MAX <= a -> cell a s = None.
Proof.
  intros [Hlen _] Ha. apply lookup_ge_None_2. rewrite Hlen. lia.
Qed.

Lemma mem_load_cell a s :
  mem_load a s = match cell a s with Some v => Ok (v, s) | None => Undefined end.
Proof. reflexivity. Qed.

Lemma mem_store_cell a v s :
  mem_store a v s =
    match cell a s with
    | Some _ => Ok (tt, with_memory (<[Z.to_nat a := v]> (memory s)) s)
    | None => Undefined
    end.
Proof. reflexivity. Qed.

Lemma cell_store_eq a v s :
  is_Some (cell a s) ->
  cell a (with_memory (<[Z.to_nat a := v]> (memory s)) s) = Some v.
Proof.
  intros Ha. unfold cell. simpl. apply list_lookup_insert_eq.
  apply lookup_lt_is_Some_1. exact Ha.
Qed.

Lemma cell_store_ne a b v s :
  0 <= a -> 0 <= b -> a <> b ->
  cell b (with_memory (<[Z.to_nat a := v]> (memory s)) s) = cell b s.
Proof.
  intros Ha Hb Hne. unfold cell. simpl. apply list_lookup_insert_ne. lia.
Qed.

Lemma well_sized_store a v s :
  well_sized s -> well_sized (with_memory (<[Z.to_nat a := v]> (memory s)) s).
Proof.
  intros [Hm Hr]. split; simpl; [rewrite length_insert|]; assumption.
Qed.

Lemma well_sized_boot input : well_sized (boot blank_memory input).
Proof.
  split; cbn [boot memory registers].
  - apply length_replicate.
  - rewrite length_insert. apply length_replicate.
Qed.

Lemma well_sized_blank : well_sized blank_machine.
Proof. apply well_sized_boot. Qed.

(** Away from the keyboard status register a read is the plain array
    access. *)
Lemma mem_read_plain a s : a <> MR_KBSR -> mem_read a s = mem_load a s.
Proof.
  intros Ha. unfold mem_read, bind.
  destruct (Z.eqb_spec a MR_KBSR) as [E | _]; [contradiction | reflexivity].
Qed.

(** C1. The array [memory] has [UINT16_MAX] = 65535 cells: the addresses
    0 to 0xFFFE are cells of the array, and address 0xFFFF is not, so that
    [mem_read] and [mem_write] at 0xFFFF index the array outside its
    bounds. *)
Theorem last_address_out_of_bounds (s : machine) (v : Z) :
  well_sized s ->
  (forall a, 0 <= a < 0xFFFF -> is_Some (cell a s)) /\
  cell 0xFFFF s = None /\
  mem_read 0xFFFF s = Undefined /\
  mem_write 0xFFFF v s = Undefined.
Proof.
  intros Hs.
  assert (Hnone : cell 0xFFFF s = None)
    by (apply cell_out_of_bounds; [assumption | unfold UINT16_MAX; lia]).
  split; [|split; [|split]].
  - intros a Ha. apply cell_in_bounds; [assumption | unfold UINT16_MAX; lia].
  - exact Hnone.
  - rewrite mem_read_plain by (unfold MR_KBSR; lia).
    rewrite mem_load_cell, Hnone. reflexivity.
  - unfold mem_write. rewrite mem_store_cell, Hnone. reflexivity.
Qed.

Lemma last_address_out_of_bounds_witness :
  well_sized blank_machine /\
  ((forall a, 0 <= a < 0xFFFF -> is_Some (cell a blank_machine)) /\
   cell 0xFFFF blank_machine = None /\
   mem_read 0xFFFF blank_machine = Undefined /\
   mem_write 0xFFFF 1 blank_machine = Undefined).
Proof.
  split; [apply well_sized_blank |].
  apply (last_address_out_of_bounds blank_machine 1).
  apply well_sized_blank.
Defined.

(** C10. For an address other than [MR_KBSR], [mem_read] does what the
    plain access [memory[address]] does.  Either the address is one of
    0 to 0xFFFE (among them [MR_KBDR]): then the content of the cell is
    returned and the machine (memory, registers, input, output) is left as
    it was; or the address is 0xFFFF and the access is outside the array. *)
Theorem mem_read_other_addresses (a : Z) (s : machine) :
  well_sized s -> 0 <= a < 65536 -> a <> MR_KBSR ->
  (a < 0xFFFF /\ exists v, cell a s = Some v /\ mem_read a s = Ok (v, s)) \/
  (a = 0xFFFF /\ mem_read a s = Undefined).
Proof.
  intros Hs Ha Hne. rewrite mem_read_plain, mem_load_cell by assumption.
  destruct (Z.eq_dec a 0xFFFF) as [-> | Hlt].
  - right. split; [reflexivity|].
    rewrite cell_out_of_bounds; [reflexivity | assumption |].
    unfold UINT16_MAX; lia.
  - left. split; [lia|].
    destruct (cell_in_bounds a s Hs) as [v Hv]; [unfold UINT16_MAX; lia|].
    exists v. rewrite Hv. split; reflexivity.
Qed.

Lemma mem_read_other_addresses_witness :
  well_sized blank_machine /\ 0 <= 0xFFFF < 65536 /\ 0xFFFF <> MR_KBSR /\
  ((0xFFFF < 0xFFFF /\
    exists v, cell 0xFFFF blank_machine = Some v /\
              mem_read 0xFFFF blank_machine = Ok (v, blank_machine)) \/
   (0xFFFF = 0xFFFF /\ mem_read 0xFFFF blank_machine = Undefined)).
Proof.
  split; [apply well_sized_blank | split; [lia | split; [discriminate |]]].
  apply (mem_read_other_addresses 0xFFFF blank_machine);
    [apply well_sized_blank | lia | discriminate].
Defined.

(** The data register of the keyboard is read like any other cell. *)
Lemma mem_read_keyboard_data s :
  well_sized s ->
  exists v, cell MR_KBDR s = Some v /\ mem_read MR_KBDR s = Ok (v, s).
Proof.
  intros Hs.
  destruct (cell_in_bounds MR_KBDR s Hs) as [v Hv];
    [unfold MR_KBDR, UINT16_MAX; lia|].
  exists v. split; [exact Hv|].
  rewrite mem_read_plain, mem_load_cell, Hv by discriminate. reflexivity.
Qed.

(** ** Memory-mapped keyboard *)

Lemma mem_store_ok a v s :
  is_Some (cell a s) ->
  mem_store a v s = Ok (tt, with_memory (<[Z.to_nat a := v]> (memory s)) s).
Proof. intros [x Hx]. rewrite mem_store_cell, Hx. reflexivity. Qed.

Lemma bind_eq {A B} (m : M A) (f : A -> M B) s a s' :
  m s = Ok (a, s') -> bind m f s = f a s'.
Proof. intros H. unfold bind. rewrite H. reflexivity. Qed.

Lemma check_key_readable s :
  check_key s = Ok (readable s, with_polls (tail (polls s)) s).
Proof.
  unfold check_key, readable. destruct s as [m r f i p o].
  destruct p as [|ready later]; reflexivity.
Qed.

Lemma next_char_byte c rest s : stdin s = c :: rest -> next_char s = to_uchar c.
Proof.
  intros H. unfold next_char. rewrite H. apply wrap16_small.
  unfold u16, to_uchar. pose proof (Z.mod_pos_bound c 256). lia.
Qed.

Lemma next_char_end s : stdin s = [] -> next_char s = 0xFFFF.
Proof. intros H. unfold next_char. rewrite H. reflexivity. Qed.

Lemma getchar_next s :
  exists c, getchar s = Ok (c, with_stdin (tail (stdin s)) s) /\
            wrap16 c = next_char s.
Proof.
  unfold getchar, next_char. destruct s as [m r f i p o].
  destruct i as [|c rest]; eexists; split; reflexivity.
Qed.

(** A read of the keyboard status address, in full: the poll decides the
    value, and only a readable descriptor makes the code call [getchar]. *)
Lemma mem_read_status s :
  well_sized s ->
  exists s',
    mem_read MR_KBSR s = Ok ((if readable s then 0x8000 else 0), s') /\
    registers s' = registers s /\ stdout s' = stdout s /\
    running s' = running s /\ well_sized s' /\
    polls s' = tail (polls s) /\
    stdin s' = (if readable s then tail (stdin s) else stdin s) /\
    (forall b, 0 <= b -> b <> MR_KBSR -> b <> MR_KBDR -> cell b s' = cell b s) /\
    cell MR_KBSR s' = Some (if readable s then 0x8000 else 0) /\
    cell MR_KBDR s' = (if readable s then Some (next_char s) else cell MR_KBDR s).
Proof.
  intros Hs.
  set (s0 := with_polls (tail (polls s)) s).
  assert (Hs0 : well_sized s0) by exact Hs.
  assert (Hst : is_Some (cell MR_KBSR s0))
    by (apply cell_in_bounds; [assumption | unfold MR_KBSR, UINT16_MAX; lia]).
  assert (Hdt : is_Some (cell MR_KBDR s0))
    by (apply cell_in_bounds; [assumption | unfold MR_KBDR, UINT16_MAX; lia]).
  unfold mem_read. rewrite Z.eqb_refl.
  destruct (readable s) eqn:Hready.
  - set (s1 := with_memory (<[Z.to_nat MR_KBSR := 0x8000]> (memory s0)) s0).
    destruct (getchar_next s1) as (c & Hget & Hc).
    set (s2 := with_stdin (tail (stdin s1)) s1) in *.
    set (s3 := with_memory (<[Z.to_nat MR_KBDR := wrap16 c]> (memory s2)) s2).
    exists s3.
    assert (Hd2 : is_Some (cell MR_KBDR s2)).
    { change (cell MR_KBDR s2) with (cell MR_KBDR s1). unfold s1.
      rewrite cell_store_ne by (unfold MR_KBSR, MR_KBDR; lia). assumption. }
    assert (H1 : cell MR_KBSR s1 = Some 0x8000)
      by (apply cell_store_eq; assumption).
    assert (H3 : cell MR_KBSR s3 = Some 0x8000).
    { unfold s3. rewrite cell_store_ne by (unfold MR_KBSR, MR_KBDR; lia).
      exact H1. }
    split.
    + rewrite (bind_eq _ _ s tt s3).
      * rewrite mem_load_cell, H3. reflexivity.
      * rewrite (bind_eq _ _ s true s0)
          by (rewrite check_key_readable, Hready; reflexivity).
        rewrite (bind_eq _ _ s0 tt s1) by (apply mem_store_ok; assumption).
        rewrite (bind_eq _ _ s1 c s2) by exact Hget.
        rewrite mem_store_ok by assumption. reflexivity.
    + split; [reflexivity | split; [reflexivity | split; [reflexivity |]]].
      split; [|split; [reflexivity | split; [reflexivity | split; [|split]]]].
      * unfold s3. apply well_sized_store.
        change (well_sized s1). unfold s1. apply well_sized_store. assumption.
      * intros b Hb Hb1 Hb2. unfold s3.
        rewrite cell_store_ne by (unfold MR_KBDR in *; lia).
        change (cell b s2) with (cell b s1). unfold s1.
        rewrite cell_store_ne by (unfold MR_KBSR in *; lia). reflexivity.
      * exact H3.
      * unfold s3. rewrite cell_store_eq by assumption.
        rewrite Hc. reflexivity.
  - set (s1 := with_memory (<[Z.to_nat MR_KBSR := 0]> (memory s0)) s0).
    exists s1. split.
    + rewrite (bind_eq _ _ s tt s1).
      * rewrite mem_load_cell. unfold s1. rewrite cell_store_eq by assumption.
        reflexivity.
      * rewrite (bind_eq _ _ s false s0)
          by (rewrite check_key_readable, Hready; reflexivity).
        apply mem_store_ok. assumption.
    + split; [reflexivity | split; [reflexivity | split; [reflexivity |]]].
      split; [apply well_sized_store; assumption |].
      split; [reflexivity | split; [reflexivity | split; [|split]]].
      * intros b Hb H1 H2. unfold s1.
        rewrite cell_store_ne by (unfold MR_KBSR in *; lia). reflexivity.
      * apply cell_store_eq. assumption.
      * unfold s1. rewrite cell_store_ne by (unfold MR_KBSR, MR_KBDR; lia).
        reflexivity.
Qed.

(** C6 (amended).  What a read of the keyboard status address
    does is decided by [select] on the descriptor of standard input, not by
    the bytes that are pending on the stream.  When [select] reports that
    nothing can be read, the read returns 0, leaves 0 in the status cell and
    leaves the data cell and the stream as they were.  When [select]
    reports the descriptor readable, the status cell (and the value read)
    is 0x8000, whose bit 15 is set, and the data cell holds what [getchar]
    returned: the next byte of the stream, which is consumed, or 0xFFFF
    when the stream is at its end. *)
Theorem keyboard_status_read (s : machine) :
  well_sized s ->
  (readable s = false ->
     exists s', mem_read MR_KBSR s = Ok (0, s') /\
       cell MR_KBSR s' = Some 0 /\
       cell MR_KBDR s' = cell MR_KBDR s /\
       stdin s' = stdin s) /\
  (readable s = true ->
     exists s', mem_read MR_KBSR s = Ok (0x8000, s') /\
       cell MR_KBSR s' = Some 0x8000 /\
       Z.testbit 0x8000 15 = true /\
       match stdin s with
       | c :: rest => cell MR_KBDR s' = Some (to_uchar c) /\ stdin s' = rest
       | [] => cell MR_KBDR s' = Some 0xFFFF /\ stdin s' = []
       end).
Proof.
  intros Hs.
  destruct (mem_read_status s Hs)
    as (s' & Hread & _ & _ & _ & _ & _ & Hin & _ & Hst & Hdt).
  split; intros Hready; rewrite Hready in *; exists s'.
  - split; [exact Hread | split; [exact Hst | split; [exact Hdt | exact Hin]]].
  - split; [exact Hread | split; [exact Hst | split; [reflexivity |]]].
    destruct (stdin s) as [|c rest] eqn:Hi.
    + split; [|exact Hin]. rewrite Hdt, (next_char_end s Hi). reflexivity.
    + split; [|exact Hin]. rewrite Hdt, (next_char_byte c rest s Hi). reflexivity.
Qed.

Lemma keyboard_status_read_witness :
  well_sized key_then_idle /\
  ((readable key_then_idle = false ->
      exists s', mem_read MR_KBSR key_then_idle = Ok (0, s') /\
        cell MR_KBSR s' = Some 0 /\
        cell MR_KBDR s' = cell MR_KBDR key_then_idle /\
        stdin s' = stdin key_then_idle) /\
   (readable key_then_idle = true ->
      exists s', mem_read MR_KBSR key_then_idle = Ok (0x8000, s') /\
        cell MR_KBSR s' = Some 0x8000 /\
        Z.testbit 0x8000 15 = true /\
        match stdin key_then_idle with
        | c :: rest => cell MR_KBDR s' = Some (to_uchar c) /\ stdin s' = rest
        | [] => cell MR_KBDR s' = Some 0xFFFF /\ stdin s' = []
        end)).
Proof.
  split; [apply well_sized_boot |].
  apply (keyboard_status_read key_then_idle). apply well_sized_boot.
Defined.

(** C6 (as stated) fails both ways.  At the end of the input no
    byte is pending, yet [select] reports the descriptor readable: the read
    returns 0x8000 and the data cell, which held 0, is overwritten with
    [(uint16_t) EOF] = 0xFFFF.  And after [GETC] has taken the first of two
    keys that arrived together, the second is pending in the buffer of the
    stream, yet [select] sees nothing on the descriptor: the read returns 0
    and the byte stays where it is. *)
Lemma keyboard_poll_follows_select :
  (stdin at_end_of_input = [] /\
   cell MR_KBDR at_end_of_input = Some 0 /\
   exists s', mem_read MR_KBSR at_end_of_input = Ok (0x8000, s') /\
     cell MR_KBSR s' = Some 0x8000 /\
     cell MR_KBDR s' = Some 0xFFFF) /\
  (exists s1, trap_getc two_keys = Ok (tt, s1) /\
     reg R0 s1 = 120 /\ stdin s1 = [65] /\
     exists s2, mem_read MR_KBSR s1 = Ok (0, s2) /\
       cell MR_KBSR s2 = Some 0 /\
       stdin s2 = [65]).
Proof.
  split.
  - split; [reflexivity|]. split.
    + unfold cell. cbn [at_end_of_input with_polls blank_machine boot memory].
      apply lookup_replicate_2. unfold MR_KBDR, UINT16_MAX. lia.
    + destruct (mem_read_status at_end_of_input)
        as (s' & Hread & _ & _ & _ & _ & _ & _ & _ & Hst & Hdt);
        [apply well_sized_boot |].
      exists s'. split; [exact Hread | split; [exact Hst | exact Hdt]].
  - set (s1 := with_registers (<[Z.to_nat R0 := 120]> (registers two_keys))
                 (with_stdin [65] two_keys)).
    exists s1. split; [reflexivity | split; [reflexivity | split; [reflexivity |]]].
    destruct (mem_read_status s1)
      as (s2 & Hread & _ & _ & _ & _ & _ & Hin & _ & Hst & _).
    { split; [apply length_replicate |].
      cbn [s1 registers with_registers]. rewrite length_insert.
      apply well_sized_boot with (input := []). }
    exists s2. split; [exact Hread | split; [exact Hst | exact Hin]].
Qed.

(** ** Register-only handlers *)

Lemma boot_well_formed image input :
  length image = Z.to_nat UINT16_MAX -> Forall u16 image ->
  well_formed (boot image input).
Proof.
  intros Hlen Himg. split; [split|split]; cbn [boot memory registers].
  - assumption.
  - rewrite length_insert. apply length_replicate.
  - assumption.
  - apply Forall_insert; [apply Forall_replicate|]; unfold u16, PC_START; lia.
Qed.

Lemma well_formed_blank : well_formed blank_machine.
Proof.
  apply boot_well_formed; [apply length_replicate |].
  apply Forall_replicate. unfold u16. lia.
Qed.

Lemma c_true_bit x n :
  0 <= n -> c_true (Z.land (Z.shiftr x n) 1) = Z.testbit x n.
Proof.
  intros Hn. change 1 with (Z.ones 1). rewrite Z.land_ones by lia.
  change (2 ^ 1) with 2. rewrite <- Z.bit0_mod.
  rewrite Z.shiftr_spec by lia. rewrite Z.add_0_l.
  unfold c_true. destruct (Z.testbit x n); reflexivity.
Qed.

Lemma land7_field x lo : 0 <= lo -> Z.land (Z.shiftr x lo) 0x7 = field x lo 3.
Proof. intros. apply (land_field x lo 3); lia. Qed.

Lemma wrap16_add_r a b : wrap16 (a + wrap16 b) = wrap16 (a + b).
Proof. unfold wrap16. apply Zplus_mod_idemp_r. Qed.

(** C7. [jsr] always completes; afterwards R7 holds the program counter
    from before the jump, in both modes.  With bit 11 set the new program
    counter is the old one plus the sign-extended 11-bit offset; with bit 11
    clear it is the content of the base register read after R7 was written,
    so that the base register R7 yields the saved program counter. *)
Theorem jsr_saves_pc (instr : Z) (s : machine) :
  length (registers s) = Z.to_nat R_COUNT ->
  exists s', jsr instr s = Ok (tt, s') /\
    reg R7 s' = reg R_PC s /\
    (Z.testbit instr 11 = true ->
       reg R_PC s' = wrap16 (reg R_PC s + twos_complement 11 (field instr 0 11))) /\
    (Z.testbit instr 11 = false ->
       (field instr 6 3 = R7 -> reg R_PC s' = reg R_PC s) /\
       (field instr 6 3 <> R7 -> reg R_PC s' = reg (field instr 6 3) s)).
Proof.
  intros Hlen.
  assert (Hlen' : length (registers s) = 10%nat) by exact Hlen.
  unfold jsr, bind, get_reg, set_reg. cbv beta iota zeta.
  rewrite c_true_bit by lia. rewrite land7_field by lia.
  pose proof (field_bound instr 6 3 ltac:(lia)) as Hb. change (2 ^ 3) with 8 in Hb.
  destruct (Z.testbit instr 11); eexists; (split; [reflexivity|]);
    unfold reg; cbn [registers with_registers];
    change (Z.to_nat R7) with 7%nat; change (Z.to_nat R_PC) with 8%nat.
  - split; [|split; [intros _ | discriminate]].
    + rewrite list_lookup_total_insert_ne by lia.
      apply list_lookup_total_insert_eq. lia.
    + rewrite list_lookup_total_insert_eq by (rewrite length_insert; lia).
      rewrite list_lookup_total_insert_ne by lia.
      change 0x7FF with (Z.ones 11).
      rewrite sign_extend_spec, land_mask by
        (try rewrite land_mask by lia; try apply Z.mod_pos_bound; lia).
      rewrite wrap16_add_r. unfold field. rewrite Z.pow_0_r, Z.div_1_r. reflexivity.
  - split; [|split; [discriminate | intros _; split; intros Hf]].
    + rewrite list_lookup_total_insert_ne by lia.
      apply list_lookup_total_insert_eq. lia.
    + rewrite list_lookup_total_insert_eq by (rewrite length_insert; lia).
      rewrite Hf. change (Z.to_nat R7) with 7%nat.
      apply list_lookup_total_insert_eq. lia.
    + rewrite list_lookup_total_insert_eq by (rewrite length_insert; lia).
      apply list_lookup_total_insert_ne. unfold R7 in Hf. lia.
Qed.

Lemma jsr_saves_pc_witness :
  length (registers blank_machine) = Z.to_nat R_COUNT /\
  exists s', jsr 0x41C0 blank_machine = Ok (tt, s') /\
    reg R7 s' = reg R_PC blank_machine /\
    (Z.testbit 0x41C0 11 = true ->
       reg R_PC s' = wrap16 (reg R_PC blank_machine
                             + twos_complement 11 (field 0x41C0 0 11))) /\
    (Z.testbit 0x41C0 11 = false ->
       (field 0x41C0 6 3 = R7 -> reg R_PC s' = reg R_PC blank_machine) /\
       (field 0x41C0 6 3 <> R7 ->
          reg R_PC s' = reg (field 0x41C0 6 3) blank_machine)).
Proof.
  split; [reflexivity |].
  apply (jsr_saves_pc 0x41C0 blank_machine). reflexivity.
Defined.

(** ** Condition flags *)

Lemma top_bit v : u16 v -> c_true (Z.shiftr v 15) = Z.testbit v 15.
Proof.
  intros Hv. rewrite Z.testbit_odd, Z.shiftr_div_pow2 by lia.
  change (2 ^ 15) with 32768.
  assert (Hq : v / 32768 = 0 \/ v / 32768 = 1).
  { unfold u16 in Hv.
    assert (0 <= v / 32768 < 2); [|lia].
    split; [apply Z.div_pos; lia | apply Z.div_lt_upper_bound; lia]. }
  destruct Hq as [-> | ->]; reflexivity.
Qed.

Lemma update_flags_flag_of r s :
  u16 (reg r s) ->
  update_flags r s =
    Ok (tt, with_registers (<[Z.to_nat R_COND := flag_of (reg r s)]> (registers s)) s).
Proof.
  intros Hv. unfold update_flags, bind, get_reg, set_reg, flag_of.
  cbv beta iota. fold (reg r s). rewrite <- top_bit by assumption.
  destruct (reg r s =? 0); [reflexivity|].
  destruct (c_true _); reflexivity.
Qed.

Lemma write_then_flags r v s :
  length (registers s) = Z.to_nat R_COUNT -> 0 <= r < 8 -> u16 v ->
  exists s', bind (set_reg r v) (fun _ => update_flags r) s = Ok (tt, s') /\
    reg r s' = v /\ reg R_COND s' = flag_of v.
Proof.
  intros Hlen Hr Hv.
  set (s1 := with_registers (<[Z.to_nat r := v]> (registers s)) s).
  assert (H1 : reg r s1 = v) by (apply reg_set_eq; [unfold R_COUNT; lia | assumption]).
  assert (Hlen1 : length (registers s1) = Z.to_nat R_COUNT)
    by (unfold s1; cbn [registers with_registers]; rewrite length_insert; assumption).
  eexists. split.
  - unfold bind, set_reg. fold s1. apply update_flags_flag_of. rewrite H1. assumption.
  - rewrite H1. split.
    + rewrite reg_set_ne by (unfold R_COND; lia). exact H1.
    + apply reg_set_eq; [unfold R_COND, R_COUNT; lia | assumption].
Qed.

(** C8. [add] and [and] always complete on a well-formed machine.  The
    second operand is the sign-extended low five bits of the instruction
    when bit 5 is set and the register selected by the low three bits when
    it is clear; the destination register receives the sum (modulo 2^16),
    respectively the bitwise conjunction, and in both modes the condition
    register is the flag of the new content of the destination register. *)
Theorem add_and_operands (instr : Z) (s : machine) :
  well_formed s ->
  let dr := field instr 9 3 in
  let sr1 := field instr 6 3 in
  let operand2 :=
    if Z.testbit instr 5 then wrap16 (twos_complement 5 (field instr 0 5))
    else reg (field instr 0 3) s in
  (exists s', add instr s = Ok (tt, s') /\
     reg dr s' = wrap16 (reg sr1 s + operand2) /\
     reg R_COND s' = flag_of (reg dr s')) /\
  (exists s', and instr s = Ok (tt, s') /\
     reg dr s' = Z.land (reg sr1 s) operand2 /\
     reg R_COND s' = flag_of (reg dr s')).
Proof.
  intros Hwf dr sr1 operand2.
  assert (Hlen : length (registers s) = Z.to_nat R_COUNT) by apply Hwf.
  pose proof (field_bound instr 9 3 ltac:(lia)) as Hdr. change (2 ^ 3) with 8 in Hdr.
  pose proof (field_bound instr 6 3 ltac:(lia)) as Hsr1. change (2 ^ 3) with 8 in Hsr1.
  pose proof (field_bound instr 0 3 ltac:(lia)) as Hsr2. change (2 ^ 3) with 8 in Hsr2.
  assert (Himm : sign_extend (Z.land instr 0x1F) 5
                 = wrap16 (twos_complement 5 (field instr 0 5))).
  { change 0x1F with (Z.ones 5). rewrite land_mask by lia.
    rewrite sign_extend_spec by (try apply Z.mod_pos_bound; lia).
    unfold field. rewrite Z.pow_0_r, Z.div_1_r. reflexivity. }
  assert (Hr2 : Z.land instr 0x7 = field instr 0 3).
  { change 0x7 with (Z.ones 3). rewrite land_mask by lia.
    unfold field. rewrite Z.pow_0_r, Z.div_1_r. reflexivity. }
  assert (Hop2 : u16 operand2).
  { unfold operand2. destruct (Z.testbit instr 5); [apply wrap16_u16|].
    apply well_formed_reg; [assumption | unfold R_COUNT; lia]. }
  split.
  - destruct (write_then_flags dr (wrap16 (reg sr1 s + operand2)) s Hlen Hdr
                (wrap16_u16 _)) as (s' & Hrun & Hd & Hc).
    exists s'. split; [|split; [exact Hd | rewrite Hd; exact Hc]].
    rewrite <- Hrun. unfold add. cbv zeta.
    rewrite c_true_bit, !land7_field, Himm, Hr2 by lia.
    unfold operand2. destruct (Z.testbit instr 5); reflexivity.
  - destruct (write_then_flags dr (wrap16 (Z.land (reg sr1 s) operand2)) s Hlen Hdr
                (wrap16_u16 _)) as (s' & Hrun & Hd & Hc).
    rewrite (wrap16_small _ (land_u16 (reg sr1 s) _ Hop2)) in Hd, Hc.
    exists s'. split; [|split; [exact Hd | rewrite Hd; exact Hc]].
    rewrite <- Hrun. unfold and. cbv zeta.
    rewrite c_true_bit, !land7_field, Himm, Hr2 by lia.
    unfold operand2. destruct (Z.testbit instr 5); reflexivity.
Qed.

Lemma add_and_operands_witness :
  well_formed blank_machine /\
  let dr := field 0x1025 9 3 in
  let sr1 := field 0x1025 6 3 in
  let operand2 :=
    if Z.testbit 0x1025 5 then wrap16 (twos_complement 5 (field 0x1025 0 5))
    else reg (field 0x1025 0 3) blank_machine in
  (exists s', add 0x1025 blank_machine = Ok (tt, s') /\
     reg dr s' = wrap16 (reg sr1 blank_machine + operand2) /\
     reg R_COND s' = flag_of (reg dr s')) /\
  (exists s', and 0x1025 blank_machine = Ok (tt, s') /\
     reg dr s' = Z.land (reg sr1 blank_machine) operand2 /\
     reg R_COND s' = flag_of (reg dr s')).
Proof.
  split; [apply well_formed_blank |].
  apply (add_and_operands 0x1025 blank_machine). apply well_formed_blank.
Defined.

(** ** TRAP *)

(** C9. A TRAP instruction whose low byte is below 0x20 or above 0x25
    completes and leaves the whole machine as it was: memory, registers,
    execution flag, pending input and output written. *)
Theorem unknown_trap_is_noop (instr : Z) (s : machine) :
  Z.shiftr instr 12 = OP_TRAP ->
  Z.land instr 0xFF < 0x20 \/ 0x25 < Z.land instr 0xFF ->
  execute instr s = Ok (tt, s) /\
  forall running, trap instr running s = Ok (tt, s).
Proof.
  intros Hop Hcode.
  assert (Htrap : forall p, trap instr p s = Ok (tt, s)).
  { intros p. unfold trap. cbv zeta.
    unfold TRAP_GETC, TRAP_OUT, TRAP_PUTS, TRAP_IN, TRAP_PUTSP, TRAP_HALT.
    rewrite (proj2 (Z.eqb_neq _ 0x20)), (proj2 (Z.eqb_neq _ 0x21)),
      (proj2 (Z.eqb_neq _ 0x22)), (proj2 (Z.eqb_neq _ 0x23)),
      (proj2 (Z.eqb_neq _ 0x24)), (proj2 (Z.eqb_neq _ 0x25)) by lia.
    reflexivity. }
  split; [|exact Htrap].
  unfold execute. cbv zeta. rewrite Hop. apply Htrap.
Qed.

Lemma unknown_trap_is_noop_witness :
  Z.shiftr 0xF0FF 12 = OP_TRAP /\
  (Z.land 0xF0FF 0xFF < 0x20 \/ 0x25 < Z.land 0xF0FF 0xFF) /\
  (execute 0xF0FF blank_machine = Ok (tt, blank_machine) /\
   forall running, trap 0xF0FF running blank_machine = Ok (tt, blank_machine)).
Proof.
  assert (Hcode : Z.land 0xF0FF 0xFF < 0x20 \/ 0x25 < Z.land 0xF0FF 0xFF)
    by (right; reflexivity).
  split; [reflexivity | split; [exact Hcode |]].
  apply (unknown_trap_is_noop 0xF0FF blank_machine); [reflexivity | exact Hcode].
Defined.

(** C2. Executing a TRAP instruction whose low byte is 0x25 completes,
    writes the halt notice, and leaves the execution flag as it was: the
    store in [halt] goes to the pointer parameter of [trap], not to the
    flag of [main]. *)
Theorem halt_trap_leaves_flag_set (instr : Z) (s : machine) :
  Z.shiftr instr 12 = OP_TRAP ->
  Z.land instr 0xFF = TRAP_HALT ->
  exists s', execute instr s = Ok (tt, s') /\
    stdout s' = stdout s ++ bytes_of_string "HALT" ++ [10] /\
    running s' = running s.
Proof.
  intros Hop Hcode.
  exists (with_stdout (stdout s ++ bytes_of_string "HALT" ++ [10]) s).
  split; [|split; reflexivity].
  unfold execute. cbv zeta. rewrite Hop.
  change (trap instr addr_of_main_running s
          = Ok (tt, with_stdout (stdout s ++ bytes_of_string "HALT" ++ [10]) s)).
  unfold trap. cbv zeta. rewrite Hcode. reflexivity.
Qed.

Lemma halt_trap_leaves_flag_set_witness :
  Z.shiftr 0xF025 12 = OP_TRAP /\ Z.land 0xF025 0xFF = TRAP_HALT /\
  exists s', execute 0xF025 (boot halt_image []) = Ok (tt, s') /\
    stdout s' = stdout (boot halt_image []) ++ bytes_of_string "HALT" ++ [10] /\
    running s' = running (boot halt_image []).
Proof.
  split; [reflexivity | split; [reflexivity |]].
  apply (halt_trap_leaves_flag_set 0xF025 (boot halt_image [])); reflexivity.
Defined.

(** ** The condition register along a run *)

Lemma boot_cond image input : reg R_COND (boot image input) = 0.
Proof. reflexivity. Qed.

Lemma start_cond image input answers :
  reg R_COND (with_polls answers (boot image input)) = 0.
Proof. reflexivity. Qed.

Lemma one_flag_flag_of v : one_flag (flag_of v).
Proof.
  unfold one_flag, flag_of.
  destruct (v =? 0); [tauto|]. destruct (Z.testbit v 15); tauto.
Qed.

Lemma reachable_inv s :
  reachable s -> inv (fun c b => at_most_one_flag c /\ b = true) s.
Proof.
  induction 1 as [image input answers Hlen Himg | s u s' _ IH _ Hcycle].
  - split; [apply (boot_well_formed image input); assumption|].
    split; [left; apply start_cond | reflexivity].
  - assert (Hk := keeps_cycle (fun c b => at_most_one_flag c /\ b = true)).
    specialize (Hk ltac:(intros c c' b [_ Hb] Hc'; split; [right|]; assumption) s IH).
    rewrite Hcycle in Hk. apply Hk.
Qed.

(** C3 (as stated) fails in the state in which [main] enters the loop: the
    condition register is 0 there, which is none of the three flags. *)
Lemma cond_register_zero_at_boot :
  reachable blank_machine /\
  reg R_COND blank_machine = 0 /\
  ~ one_flag (reg R_COND blank_machine).
Proof.
  split; [|split].
  - apply (reachable_boot blank_memory [] []); [apply length_replicate |].
    apply Forall_replicate. unfold u16. lia.
  - reflexivity.
  - unfold blank_machine. rewrite boot_cond.
    intros [H | [H | H]]; discriminate H.
Qed.

(** C3 (amended). In every state the machine can be in, the condition
    register holds 0 or exactly one of the three flags; once it holds
    exactly one flag it holds exactly one flag after every instruction
    cycle; and it holds 0 when [main] enters the loop. *)
Theorem cond_register_invariant (s : machine) :
  reachable s ->
  at_most_one_flag (reg R_COND s) /\
  (forall u s', one_flag (reg R_COND s) -> cycle s = Ok (u, s') ->
                one_flag (reg R_COND s')) /\
  (forall image input answers,
     reg R_COND (with_polls answers (boot image input)) = 0).
Proof.
  intros Hr. destruct (reachable_inv s Hr) as [Hwf [Hc _]].
  split; [exact Hc|]. split; [|exact start_cond]. intros u s' Hone Hcycle.
  assert (Hk := keeps_cycle (fun c _ => one_flag c)).
  specialize (Hk ltac:(intros c c' b _ Hc'; exact Hc') s (conj Hwf Hone)).
  rewrite Hcycle in Hk. apply Hk.
Qed.

Lemma cond_register_invariant_witness :
  reachable blank_machine /\
  (at_most_one_flag (reg R_COND blank_machine) /\
   (forall u s', one_flag (reg R_COND blank_machine) ->
                 cycle blank_machine = Ok (u, s') ->
                 one_flag (reg R_COND s')) /\
   (forall image input answers,
      reg R_COND (with_polls answers (boot image input)) = 0)).
Proof.
  assert (Hr : reachable blank_machine).
  { apply (reachable_boot blank_memory [] []); [apply length_replicate |].
    apply Forall_replicate. unfold u16. lia. }
  split; [exact Hr |].
  apply (cond_register_invariant blank_machine). exact Hr.
Defined.

(** ** The execution flag *)

Lemma cycle_keeps_running s u s' :
  well_formed s -> cycle s = Ok (u, s') -> running s' = running s.
Proof.
  intros Hwf Hcycle.
  assert (Hk := keeps_cycle (fun _ b => b = running s)).
  specialize (Hk ltac:(intros c c' b Hb _; exact Hb) s (conj Hwf eq_refl)).
  rewrite Hcycle in Hk. apply Hk.
Qed.

(** No cycle changes the execution flag, so the loop is never left through
    its condition: a run ends by [abort()], by an access outside [memory],
    or not at all. *)
Theorem run_never_exits (fuel : nat) (s s' : machine) :
  reachable s -> run fuel s <> Exited s'.
Proof.
  revert s. induction fuel as [|fuel IH]; intros s Hr;
    destruct (reachable_inv s Hr) as [_ [_ Hrun]]; simpl; rewrite Hrun.
  - discriminate.
  - destruct (cycle s) as [[u s1]| |] eqn:Hcycle; [|discriminate|discriminate].
    apply IH. exact (reachable_cycle s u s1 Hr Hrun Hcycle).
Qed.

(** An image whose first instruction is [TRAP HALT] prints the notice and
    goes on with the instruction at 0x3001. *)
Lemma halt_image_goes_on :
  match run 1 (boot halt_image []) with
  | Still_running s =>
      running s = true /\ reg R_PC s = 0x3001 /\
      stdout s = bytes_of_string "HALT" ++ [10]
  | _ => False
  end.
Proof. vm_compute. repeat split. Qed.

Lemma halt_image_never_exits fuel s' :
  run fuel (boot halt_image []) <> Exited s'.
Proof.
  apply run_never_exits. apply (reachable_boot halt_image [] []).
  - unfold halt_image. rewrite length_insert. apply length_replicate.
  - unfold halt_image. apply Forall_insert; [apply Forall_replicate|];
      unfold u16; lia.
Qed.

(** ** Which instructions update the flags *)

#[local] Hint Resolve keeps_mem_read : keeps.

Lemma sets_flags_of_update_flags r :
  0 <= r < 8 -> sets_flags_of r (update_flags r).
Proof.
  intros Hr s Hwf.
  rewrite update_flags_flag_of by (apply well_formed_reg; [assumption | unfold R_COUNT; lia]).
  rewrite reg_set_eq by (unfold R_COND, R_COUNT; first [lia | apply Hwf]).
  rewrite reg_set_ne by (unfold R_COND; lia). reflexivity.
Qed.

Lemma sets_flags_of_bind {A B} r (m : M A) (f : A -> M B) Q :
  keeps (fun _ _ => True) m Q ->
  (forall a, Q a -> sets_flags_of r (f a)) ->
  sets_flags_of r (bind m f).
Proof.
  intros Hm Hf s Hwf. unfold bind. specialize (Hm s (conj Hwf I)).
  destruct (m s) as [[a s1]| |]; [|exact I|exact I].
  destruct Hm as [[Hwf1 _] Ha]. exact (Hf a Ha s1 Hwf1).
Qed.

Ltac flags_steps :=
  lazymatch goal with
  | |- sets_flags_of _ (update_flags _) =>
      apply sets_flags_of_update_flags; apply land7_bound
  | |- sets_flags_of _ (bind _ _) =>
      eapply sets_flags_of_bind; [solve [keeps_auto] | intros ? ?; flags_steps]
  end.

Ltac flags_handler h := intros; unfold h; cbv zeta; flags_steps.

Lemma sets_flags_of_add i : sets_flags_of (Z.land (Z.shiftr i 9) 0x7) (add i).
Proof. flags_handler add. Qed.
Lemma sets_flags_of_and i : sets_flags_of (Z.land (Z.shiftr i 9) 0x7) (and i).
Proof. flags_handler and. Qed.
Lemma sets_flags_of_not i : sets_flags_of (Z.land (Z.shiftr i 9) 0x7) (not i).
Proof. flags_handler not. Qed.
Lemma sets_flags_of_ld i : sets_flags_of (Z.land (Z.shiftr i 9) 0x7) (ld i).
Proof. flags_handler ld. Qed.
Lemma sets_flags_of_ldi i : sets_flags_of (Z.land (Z.shiftr i 9) 0x7) (ldi i).
Proof. flags_handler ldi. Qed.
Lemma sets_flags_of_ldr i : sets_flags_of (Z.land (Z.shiftr i 9) 0x7) (ldr i).
Proof. flags_handler ldr. Qed.
Lemma sets_flags_of_lea i : sets_flags_of (Z.land (Z.shiftr i 9) 0x7) (lea i).
Proof. flags_handler lea. Qed.

Lemma keeps_cond_unchanged {A} (m : M A) s a s' :
  (forall S, keeps S m (fun _ => True)) ->
  well_formed s -> m s = Ok (a, s') -> reg R_COND s' = reg R_COND s.
Proof.
  intros Hk Hwf Hm.
  specialize (Hk (fun c _ => c = reg R_COND s) s (conj Hwf eq_refl)).
  rewrite Hm in Hk. apply Hk.
Qed.

(** C4 (as stated) fails for [JSR]: after [AND R0, R0, #0] has set the
    ZERO flag, [JSR] writes 0x3002 (a positive value) to R7, which held 0,
    and the condition register still holds ZERO. *)
Lemma jsr_leaves_flags_stale :
  match cycle (boot jsr_image []) with
  | Ok (_, s1) =>
      match cycle s1 with
      | Ok (_, s2) =>
          reg R7 s1 = 0 /\ reg R7 s2 = 0x3002 /\
          reg R_COND s2 = FLG_ZRO /\ flag_of (reg R7 s2) = FLG_POS /\
          reg R_COND s2 <> flag_of (reg R7 s2)
      | _ => False
      end
  | _ => False
  end.
Proof. vm_compute. repeat split. discriminate. Qed.

(** C4 (amended). After an instruction whose opcode is ADD, AND, NOT, LD,
    LDI, LDR or LEA has written its result to the destination register, the
    condition register is ZERO if the written value is 0, NEGATIVE if its
    bit 15 is set and POSITIVE otherwise, exactly one flag; every other
    instruction that completes (among them JSR/JSRR, which writes R7, and
    the traps GETC and IN, which write R0) leaves the condition register as
    it was. *)
Theorem flags_follow_result (instr : Z) (s s' : machine) (u : unit) :
  well_formed s -> execute instr s = Ok (u, s') ->
  (updates_flags (Z.shiftr instr 12) = true ->
     reg R_COND s' = flag_of (reg (field instr 9 3) s') /\
     one_flag (reg R_COND s')) /\
  (updates_flags (Z.shiftr instr 12) = false ->
     reg R_COND s' = reg R_COND s).
Proof.
  intros Hwf. unfold execute. cbv zeta. rewrite <- land7_field by lia.
  assert (Hset : forall m : M unit,
            sets_flags_of (Z.land (Z.shiftr instr 9) 0x7) m -> m s = Ok (u, s') ->
            reg R_COND s' = flag_of (reg (Z.land (Z.shiftr instr 9) 0x7) s') /\
            one_flag (reg R_COND s')).
  { intros m Hm Hrun. specialize (Hm s Hwf). rewrite Hrun in Hm.
    split; [exact Hm | rewrite Hm; apply one_flag_flag_of]. }
  assert (Hsame : forall m : M unit,
            (forall S, keeps S m (fun _ => True)) -> m s = Ok (u, s') ->
            reg R_COND s' = reg R_COND s).
  { intros m Hm Hrun. exact (keeps_cond_unchanged m s u s' Hm Hwf Hrun). }
  repeat match goal with
         | |- (if ?x =? ?c then _ else _) s = _ -> _ =>
             destruct (Z.eqb_spec x c) as [-> | ?]
         end;
    try (intros Hrun; split; intros Hup; try discriminate Hup; try discriminate Hrun).
  all: try (eapply Hset; [|exact Hrun]);
    try (eapply Hsame; [|exact Hrun]; intros S).
  all: first
    [ apply sets_flags_of_add | apply sets_flags_of_and | apply sets_flags_of_not
    | apply sets_flags_of_ld | apply sets_flags_of_ldi | apply sets_flags_of_ldr
    | apply sets_flags_of_lea | apply keeps_br | apply keeps_jmp | apply keeps_jsr
    | apply keeps_st | apply keeps_sti | apply keeps_str | apply keeps_trap | idtac ].
Qed.

Lemma flags_follow_result_witness :
  well_formed blank_machine /\
  execute 0x1025 blank_machine = Ok (tt, after_add) /\
  ((updates_flags (Z.shiftr 0x1025 12) = true ->
      reg R_COND after_add = flag_of (reg (field 0x1025 9 3) after_add) /\
      one_flag (reg R_COND after_add)) /\
   (updates_flags (Z.shiftr 0x1025 12) = false ->
      reg R_COND after_add = reg R_COND blank_machine)).
Proof.
  assert (Hrun : execute 0x1025 blank_machine = Ok (tt, after_add))
    by reflexivity.
  split; [apply well_formed_blank | split; [exact Hrun |]].
  apply (flags_follow_result 0x1025 blank_machine after_add tt);
    [apply well_formed_blank | exact Hrun].
Defined.

(** ** Sample runs *)

Example add_twice :
  match run 2 (boot add_image []) with
  | Still_running s => reg R1 s = 4 /\ reg R_COND s = FLG_POS /\ reg R_PC s = 0x3002
  | _ => False
  end.
Proof. vm_compute. repeat split. Qed.

Example puts_then_halt :
  match run 3 (boot puts_image []) with
  | Still_running s =>
      stdout s = bytes_of_string "Hi" ++ bytes_of_string "HALT" ++ [10] /\
      reg R0 s = 0x3003 /\ reg R_PC s = 0x3003 /\ running s = true
  | _ => False
  end.
Proof. vm_compute. repeat split. Qed.

Example keyboard_poll :
  match mem_read MR_KBSR key_then_idle with
  | Ok (v, s) =>
      v = 0x8000 /\ cell MR_KBDR s = Some 65 /\ stdin s = [] /\
      match mem_read MR_KBSR s with
      | Ok (v', s') => v' = 0 /\ cell MR_KBDR s' = Some 65
      | _ => False
      end
  | _ => False
  end.
Proof. vm_compute. repeat split. Qed.

(** On a descriptor that stays readable, the poll after the last key finds
    the end of the input and reports it as one more key. *)
Example keyboard_poll_at_end :
  match mem_read MR_KBSR key_waiting with
  | Ok (v, s) =>
      v = 0x8000 /\ cell MR_KBDR s = Some 65 /\ stdin s = [] /\
      match mem_read MR_KBSR s with
      | Ok (v', s') => v' = 0x8000 /\ cell MR_KBDR s' = Some 0xFFFF
      | _ => False
      end
  | _ => False
  end.
Proof. vm_compute. repeat split. Qed.

(** * Further properties of the code *)

(** ** The image loader *)

Lemma swap16_bytes a b :
  0 <= a < 256 -> 0 <= b < 256 -> swap16 (a + 256 * b) = b + 256 * a.
Proof.
  intros Ha Hb. unfold swap16.
  rewrite Z.shiftl_mul_pow2, Z.shiftr_div_pow2 by lia. change (2 ^ 8) with 256.
  replace ((a + 256 * b) / 256) with b
    by (apply (Z.div_unique_pos _ 256 b a); lia).
  rewrite Z.lor_comm. change 256 with (2 ^ 8) at 2.
  rewrite lor_disjoint by (change (2 ^ 8) with 256; lia).
  change (2 ^ 8) with 256. unfold wrap16.
  replace (b + (a + 256 * b) * 256) with (b + 256 * a + b * 65536) by lia.
  rewrite Z.mod_add by lia. apply Z.mod_small. lia.
Qed.

Lemma u16_bytes x :
  u16 x -> 0 <= x / 256 < 256 /\ 0 <= x mod 256 < 256 /\
           x = x mod 256 + 256 * (x / 256).
Proof.
  unfold u16. intros Hx. split; [|split].
  - split; [apply Z.div_pos; lia | apply Z.div_lt_upper_bound; lia].
  - apply Z.mod_pos_bound. lia.
  - pose proof (Z.div_mod x 256). lia.
Qed.

Lemma swap16_value x : u16 x -> swap16 x = 256 * (x mod 256) + x / 256.
Proof.
  intros Hx. destruct (u16_bytes x Hx) as (Hhi & Hlo & Hsplit).
  rewrite Hsplit at 1. rewrite swap16_bytes by assumption. lia.
Qed.

Lemma swap16_swap16 x : u16 x -> swap16 (swap16 x) = x.
Proof.
  intros Hx. destruct (u16_bytes x Hx) as (Hhi & Hlo & Hsplit).
  rewrite (swap16_value x) by assumption.
  replace (256 * (x mod 256) + x / 256) with (x / 256 + 256 * (x mod 256)) by lia.
  rewrite swap16_bytes by assumption. lia.
Qed.

(** X1. [swap16] exchanges the two bytes of a 16-bit value, so applying it
    twice gives the value back. *)
Theorem swap16_exchanges_bytes (x : Z) :
  u16 x ->
  swap16 x = 256 * (x mod 256) + x / 256 /\
  u16 (swap16 x) /\
  swap16 (swap16 x) = x.
Proof.
  intros Hx. split; [apply swap16_value; assumption|].
  split; [apply wrap16_u16 | apply swap16_swap16; assumption].
Qed.

Lemma swap16_exchanges_bytes_witness :
  u16 0x1234 /\
  (swap16 0x1234 = 256 * (0x1234 mod 256) + 0x1234 / 256 /\
   u16 (swap16 0x1234) /\
   swap16 (swap16 0x1234) = 0x1234).
Proof.
  assert (H : u16 0x1234) by (unfold u16; lia).
  split; [exact H | apply (swap16_exchanges_bytes 0x1234); exact H].
Defined.

Lemma to_uchar_small b : 0 <= b < 256 -> to_uchar b = b.
Proof. intros. unfold to_uchar. apply Z.mod_small. lia. Qed.

Lemma fread_u16_words count words :
  Forall u16 words ->
  fread_u16 count (flat_map be_bytes words)
  = Some (map swap16 (take count words)).
Proof.
  intros Hw. revert count. induction Hw as [|w words Hw _ IH]; intros count.
  - destruct count; reflexivity.
  - destruct count as [|count]; [reflexivity|].
    destruct (u16_bytes w Hw) as (Hhi & Hlo & Hsplit).
    cbn [flat_map be_bytes app fread_u16]. rewrite IH.
    rewrite !to_uchar_small by assumption.
    cbn [take map]. do 2 f_equal.
    rewrite swap16_value by assumption. lia.
Qed.

Lemma store_items_inserts items : forall p mem,
  (p + length items <= length mem)%nat ->
  store_items p items mem = Some (list_inserts p items mem).
Proof.
  induction items as [|x items IH]; intros p mem Hlen; [reflexivity|].
  cbn [length] in Hlen. cbn [store_items list_inserts].
  destruct (lookup_lt_is_Some_2 mem p ltac:(lia)) as [v ->].
  rewrite IH by (rewrite length_insert; lia).
  rewrite list_insert_inserts_lt by lia. reflexivity.
Qed.

Lemma swap_loop_inserts items : forall p mem,
  (p + length items <= length mem)%nat ->
  swap_loop (length items) p (list_inserts p items mem)
  = Some (list_inserts p (map swap16 items) mem).
Proof.
  induction items as [|x items IH]; intros p mem Hlen; [reflexivity|].
  cbn [length] in Hlen. cbn [length swap_loop list_inserts map].
  rewrite list_lookup_insert_eq by (rewrite length_inserts; lia).
  rewrite list_insert_insert_eq.
  rewrite list_insert_inserts_lt by lia.
  rewrite IH by (rewrite length_insert; lia).
  rewrite list_insert_inserts_lt by lia. reflexivity.
Qed.

Lemma map_swap16_swap16 words :
  Forall u16 words -> map swap16 (map swap16 words) = words.
Proof.
  induction 1 as [|w words Hw _ IH]; [reflexivity|].
  cbn [map]. rewrite IH. f_equal. apply swap16_swap16. assumption.
Qed.

Lemma read_image_file_loads (origin : Z) (words mem : list Z) :
  u16 origin -> Forall u16 words -> length mem = Z.to_nat UINT16_MAX ->
  read_image_file (image_file origin words) mem
  = Some (list_inserts (Z.to_nat origin) (take (room origin) words) mem).
Proof.
  intros Ho Hw Hlen. destruct (u16_bytes origin Ho) as (Hhi & Hlo & Hsplit).
  unfold image_file. cbn [be_bytes app read_image_file].
  rewrite !to_uchar_small by assumption.
  rewrite swap16_bytes by assumption.
  replace (origin mod 256 + 256 * (origin / 256)) with origin by lia.
  assert (Hroom : wrap16 (UINT16_MAX - origin) = UINT16_MAX - origin).
  { apply wrap16_small. unfold u16, UINT16_MAX in *. lia. }
  rewrite Hroom. fold (room origin). rewrite fread_u16_words by assumption.
  assert (Hfit : (Z.to_nat origin + length (map swap16 (take (room origin) words))
                  <= length mem)%nat).
  { rewrite length_map, length_take, Hlen. unfold room, u16, UINT16_MAX in *. lia. }
  rewrite store_items_inserts by assumption.
  rewrite swap_loop_inserts by assumption.
  rewrite map_swap16_swap16 by (apply Forall_take; assumption). reflexivity.
Qed.

Lemma read_image_file_keeps file mem mem' :
  read_image_file file mem = Some mem' ->
  length mem' = length mem /\ (Forall u16 mem -> Forall u16 mem').
Proof.
  assert (Hstore : forall items p m m',
            store_items p items m = Some m' ->
            length m' = length m /\
            (Forall u16 items -> Forall u16 m -> Forall u16 m')).
  { induction items as [|x items IH]; intros p m m' H; cbn [store_items] in H.
    - injection H as <-. auto.
    - destruct (m !! p); [|discriminate].
      destruct (IH _ _ _ H) as [Hl Hu]. rewrite length_insert in Hl.
      split; [exact Hl|]. intros Hi Hm. apply Forall_cons in Hi as [Hx Hi].
      apply Hu; [assumption|]. apply Forall_insert; assumption. }
  assert (Hswap : forall n p m m',
            swap_loop n p m = Some m' ->
            length m' = length m /\ (Forall u16 m -> Forall u16 m')).
  { induction n as [|n IH]; intros p m m' H; cbn [swap_loop] in H.
    - injection H as <-. auto.
    - destruct (m !! p); [|discriminate].
      destruct (IH _ _ _ H) as [Hl Hu]. rewrite length_insert in Hl.
      split; [exact Hl|]. intros Hm. apply Hu.
      apply Forall_insert; [assumption | apply wrap16_u16]. }
  assert (Hread : forall n bs items,
            fread_u16 n bs = Some items -> Forall u16 items).
  { induction n as [|n IH]; intros bs items H; cbn [fread_u16] in H.
    - injection H as <-. constructor.
    - destruct bs as [|b0 [|b1 rest]]; [injection H as <-; constructor | discriminate |].
      destruct (fread_u16 n rest) as [its|] eqn:E; [|discriminate].
      injection H as <-. constructor; [|eapply IH; eassumption].
      unfold u16, to_uchar.
      pose proof (Z.mod_pos_bound b0 256). pose proof (Z.mod_pos_bound b1 256). lia. }
  unfold read_image_file. destruct file as [|b0 [|b1 rest]]; try discriminate.
  cbv zeta. destruct (fread_u16 _ rest) as [items|] eqn:Ei; [|discriminate].
  destruct (store_items _ items mem) as [m1|] eqn:Es; [|discriminate].
  intros Hsw. destruct (Hstore _ _ _ _ Es) as [Hl1 Hu1].
  destruct (Hswap _ _ _ _ Hsw) as [Hl2 Hu2]. split; [congruence|].
  intros Hm. apply Hu2, Hu1; [eapply Hread; eassumption | assumption].
Qed.

Lemma loaded_cell origin (words mem : list Z) i w :
  u16 origin -> length mem = Z.to_nat UINT16_MAX ->
  words !! i = Some w -> (Z.to_nat origin + i < Z.to_nat UINT16_MAX)%nat ->
  list_inserts (Z.to_nat origin) (take (room origin) words) mem
    !! (Z.to_nat origin + i)%nat = Some w.
Proof.
  intros Ho Hlen Hi Hfit. rewrite list_lookup_inserts.
  - replace (Z.to_nat origin + i - Z.to_nat origin)%nat with i by lia.
    rewrite lookup_take_lt; [exact Hi|]. unfold room, u16, UINT16_MAX in *. lia.
  - apply lookup_lt_Some in Hi. rewrite length_take.
    unfold room, u16, UINT16_MAX in *. lia.
  - rewrite Hlen. exact Hfit.
Qed.

Lemma untouched_cell origin (words mem : list Z) a :
  u16 origin -> length mem = Z.to_nat UINT16_MAX ->
  (a < Z.to_nat origin \/ Z.to_nat origin + length words <= a)%nat ->
  list_inserts (Z.to_nat origin) (take (room origin) words) mem !! a = mem !! a.
Proof.
  intros Ho Hlen [Ha | Ha].
  - apply list_lookup_inserts_lt. exact Ha.
  - destruct (decide (a < length mem)%nat) as [Hin | Hout].
    + apply list_lookup_inserts_ge. rewrite length_take. rewrite Hlen in Hin.
      unfold room, u16, UINT16_MAX in *. lia.
    + rewrite !lookup_ge_None_2; [reflexivity | lia | rewrite length_inserts; lia].
Qed.

(** X2. Loading a file in the image format (origin, then the words, most
    significant byte first) succeeds whatever the origin and the number of
    words: the words that have a cell at or after the origin are in these
    cells, in order; the words beyond the end of the array are dropped; the
    cells before the origin and after the last word keep their content. *)
Theorem image_words_land_at_origin (origin : Z) (words mem : list Z) :
  u16 origin -> Forall u16 words -> length mem = Z.to_nat UINT16_MAX ->
  exists mem',
    read_image_file (image_file origin words) mem = Some mem' /\
    length mem' = length mem /\
    (forall i w, words !! i = Some w ->
       (Z.to_nat origin + i < Z.to_nat UINT16_MAX)%nat ->
       mem' !! (Z.to_nat origin + i)%nat = Some w) /\
    (forall a, (a < Z.to_nat origin \/ Z.to_nat origin + length words <= a)%nat ->
       mem' !! a = mem !! a).
Proof.
  intros Ho Hw Hlen. eexists. split; [apply read_image_file_loads; assumption|].
  split; [apply length_inserts|]. split.
  - intros i w Hi Hfit. apply loaded_cell; assumption.
  - intros a Ha. apply untouched_cell; assumption.
Qed.

Lemma image_words_land_at_origin_witness :
  u16 0x3000 /\ Forall u16 sample_words /\
  length blank_memory = Z.to_nat UINT16_MAX /\
  exists mem',
    read_image_file (image_file 0x3000 sample_words) blank_memory = Some mem' /\
    length mem' = length blank_memory /\
    (forall i w, sample_words !! i = Some w ->
       (Z.to_nat 0x3000 + i < Z.to_nat UINT16_MAX)%nat ->
       mem' !! (Z.to_nat 0x3000 + i)%nat = Some w) /\
    (forall a, (a < Z.to_nat 0x3000 \/
                Z.to_nat 0x3000 + length sample_words <= a)%nat ->
       mem' !! a = blank_memory !! a).
Proof.
  assert (Ho : u16 0x3000) by (unfold u16; lia).
  assert (Hw : Forall u16 sample_words)
    by (repeat constructor; unfold u16; lia).
  assert (Hl : length blank_memory = Z.to_nat UINT16_MAX)
    by apply length_replicate.
  split; [exact Ho | split; [exact Hw | split; [exact Hl |]]].
  apply (image_words_land_at_origin 0x3000 sample_words blank_memory);
    assumption.
Defined.

(** X3. When two images are loaded one after the other, the cells of the
    second hold the words of the second, and the cells of the first that
    the second does not cover still hold the words of the first. *)
Theorem later_image_overrides (path1 path2 : string) (origin1 origin2 : Z)
    (words1 words2 mem : list Z) :
  u16 origin1 -> u16 origin2 -> Forall u16 words1 -> Forall u16 words2 ->
  length mem = Z.to_nat UINT16_MAX ->
  exists mem',
    load_images [(path1, Some (image_file origin1 words1));
                 (path2, Some (image_file origin2 words2))] mem
      = Some (inr mem') /\
    (forall i w, words2 !! i = Some w ->
       (Z.to_nat origin2 + i < Z.to_nat UINT16_MAX)%nat ->
       mem' !! (Z.to_nat origin2 + i)%nat = Some w) /\
    (forall i w, words1 !! i = Some w ->
       (Z.to_nat origin1 + i < Z.to_nat UINT16_MAX)%nat ->
       (Z.to_nat origin1 + i < Z.to_nat origin2 \/
        Z.to_nat origin2 + length words2 <= Z.to_nat origin1 + i)%nat ->
       mem' !! (Z.to_nat origin1 + i)%nat = Some w).
Proof.
  intros Ho1 Ho2 Hw1 Hw2 Hlen.
  set (mem1 := list_inserts (Z.to_nat origin1) (take (room origin1) words1) mem).
  assert (Hlen1 : length mem1 = Z.to_nat UINT16_MAX)
    by (unfold mem1; rewrite length_inserts; exact Hlen).
  eexists. split.
  - cbn [load_images read_image].
    rewrite read_image_file_loads by assumption. fold mem1.
    cbn [c_true Z.eqb negb].
    rewrite read_image_file_loads by assumption. reflexivity.
  - split.
    + intros i w Hi Hfit. apply loaded_cell; assumption.
    + intros i w Hi Hfit Hout.
      rewrite untouched_cell by assumption.
      apply loaded_cell; assumption.
Qed.

Lemma load_images_keeps args : forall mem mem',
  load_images args mem = Some (inr mem') ->
  length mem' = length mem /\ (Forall u16 mem -> Forall u16 mem').
Proof.
  induction args as [|[path file] args IH]; intros mem mem' H;
    cbn [load_images] in H.
  - injection H as <-. auto.
  - unfold read_image in H. destruct file as [bytes|].
    + destruct (read_image_file bytes mem) as [m1|] eqn:E; [|discriminate].
      cbn [c_true Z.eqb negb] in H.
      destruct (read_image_file_keeps _ _ _ E) as [Hl1 Hu1].
      destruct (IH _ _ H) as [Hl2 Hu2]. split; [congruence | auto].
    + cbn [c_true Z.eqb negb] in H. discriminate.
Qed.

Lemma load_images_failure args : forall mem path,
  load_images args mem = Some (inl path) -> (path, None) ∈ args.
Proof.
  induction args as [|[p file] args IH]; intros mem path H;
    cbn [load_images] in H; [discriminate|].
  unfold read_image in H. destruct file as [bytes|].
  - destruct (read_image_file bytes mem) as [m1|]; [|discriminate].
    cbn [c_true Z.eqb negb] in H. apply elem_of_cons. right. eapply IH. eassumption.
  - cbn [c_true Z.eqb negb] in H. injection H as <-. apply elem_of_cons. left. reflexivity.
Qed.

(** X4. How [main] ends.  It never returns.  With no argument it calls
    [exit(2)] after the usage message.  [exit] is called with 2, 1 or -2
    only: with 1 only when one of the files named on the command line
    cannot be opened, and the message names that file; with -2 only from
    the handler of [SIGINT], once every image is loaded and while the loop
    runs, after the output written so far and a line feed.  An interrupt
    delivered in that time ends the process: by [exit(-2)], unless
    [abort()] or an access outside an array ended it before. *)
Theorem main_exit_codes (args : list (string * option (list Z)))
    (input : list Z) (answers : list bool) (sigint : option nat)
    (fuel : nat) :
  (forall code s, main args input answers sigint fuel <> Returned code s) /\
  (args = [] ->
     main args input answers sigint fuel = Exit_called 2 usage_message) /\
  (forall code out,
     main args input answers sigint fuel = Exit_called code out ->
     (code = 2 /\ args = [] /\ out = usage_message) \/
     (code = 1 /\ exists path,
        (path, None) ∈ args /\ out = load_failure_message path) \/
     (code = -2 /\ exists n mem s,
        sigint = Some n /\ (n <= fuel)%nat /\
        load_images args blank_memory = Some (inr mem) /\
        run n (with_polls answers (boot mem input)) = Still_running s /\
        out = stdout s ++ [10])) /\
  (forall n mem,
     sigint = Some n -> (n <= fuel)%nat -> args <> [] ->
     load_images args blank_memory = Some (inr mem) ->
     (exists out, main args input answers sigint fuel = Exit_called (-2) out) \/
     main args input answers sigint fuel = Main_killed \/
     main args input answers sigint fuel = Main_undefined).
Proof.
  assert (Hstart : forall mem,
            load_images args blank_memory = Some (inr mem) ->
            reachable (with_polls answers (boot mem input))).
  { intros mem E. destruct (load_images_keeps _ _ _ E) as [Hl Hu].
    apply reachable_boot.
    - rewrite Hl. apply length_replicate.
    - apply Hu. apply Forall_replicate. unfold u16. lia. }
  assert (Hend : forall k otherwise mem code s,
            load_images args blank_memory = Some (inr mem) ->
            (forall s1, otherwise s1 <> Returned code s) ->
            end_of_run (run k (with_polls answers (boot mem input))) otherwise
            <> Returned code s).
  { intros k otherwise mem code s E Ho.
    destruct (run k (with_polls answers (boot mem input))) as [s'| | |s'] eqn:Er;
      cbn [end_of_run]; try discriminate; [|apply Ho].
    exfalso. exact (run_never_exits k _ s' (Hstart mem E) Er). }
  split; [|split; [|split]].
  - intros code s. unfold main. destruct args as [|a args]; [discriminate|].
    destruct (load_images (a :: args) blank_memory) as [[path | mem]|] eqn:E;
      try discriminate.
    cbv zeta. destruct sigint as [n|]; [destruct (n <=? fuel)%nat|];
      apply (Hend _ _ mem code s eq_refl); intros s1; discriminate.
  - intros ->. reflexivity.
  - intros code out. unfold main. destruct args as [|a args].
    + intros H. injection H as <- <-. left. auto.
    + destruct (load_images (a :: args) blank_memory) as [[path | mem]|] eqn:E;
        try discriminate.
      * intros H. injection H as <- <-. right. left. split; [reflexivity|].
        exists path. split; [|reflexivity]. eapply load_images_failure. eassumption.
      * cbv zeta. destruct sigint as [n|];
          [destruct (n <=? fuel)%nat eqn:Hn|].
        -- destruct (run n (with_polls answers (boot mem input)))
             as [s'| | |s'] eqn:Er; cbn [end_of_run]; try discriminate.
           unfold handle_interrupt. intros H. injection H as <- <-.
           right. right. split; [reflexivity|].
           exists n, mem, s'. apply Nat.leb_le in Hn.
           split; [reflexivity | split; [exact Hn | split; [reflexivity |]]].
           split; [exact Er | reflexivity].
        -- destruct (run fuel (with_polls answers (boot mem input)));
             cbn [end_of_run]; discriminate.
        -- destruct (run fuel (with_polls answers (boot mem input)));
             cbn [end_of_run]; discriminate.
  - intros n mem -> Hn Hargs E. unfold main.
    destruct args as [|a args]; [contradiction|]. rewrite E. cbv zeta.
    apply Nat.leb_le in Hn. rewrite Hn.
    destruct (run n (with_polls answers (boot mem input))) as [s'| | |s'] eqn:Er;
      cbn [end_of_run].
    + exfalso. exact (run_never_exits n _ s' (Hstart mem E) Er).
    + right. left. reflexivity.
    + right. right. reflexivity.
    + left. eexists. reflexivity.
Qed.

(** ** Stores followed by loads *)

Lemma mem_write_ok a v s :
  is_Some (cell a s) ->
  mem_write a v s = Ok (tt, with_memory (<[Z.to_nat a := v]> (memory s)) s).
Proof. apply mem_store_ok. Qed.

Lemma mem_read_cell a s v :
  a <> MR_KBSR -> cell a s = Some v -> mem_read a s = Ok (v, s).
Proof.
  intros Ha Hv. rewrite mem_read_plain, mem_load_cell, Hv by assumption.
  reflexivity.
Qed.

(** X5. A value written with [mem_write] at an address of the array other
    than the keyboard status register is what [mem_read] returns there
    afterwards, the read changes nothing, and every other cell keeps its
    content. *)
Theorem mem_write_then_read (a v : Z) (s : machine) :
  well_sized s -> 0 <= a < 0xFFFF -> a <> MR_KBSR ->
  exists s',
    mem_write a v s = Ok (tt, s') /\
    mem_read a s' = Ok (v, s') /\
    (forall b, 0 <= b -> b <> a -> cell b s' = cell b s) /\
    registers s' = registers s /\ stdin s' = stdin s /\ stdout s' = stdout s.
Proof.
  intros Hs Ha Hne.
  assert (Hc : is_Some (cell a s))
    by (apply cell_in_bounds; [assumption | unfold UINT16_MAX; lia]).
  exists (with_memory (<[Z.to_nat a := v]> (memory s)) s).
  split; [apply mem_write_ok; assumption|]. split.
  - apply mem_read_cell; [assumption | apply cell_store_eq; assumption].
  - split; [|repeat split].
    intros b Hb Hba. apply cell_store_ne; lia.
Qed.

Lemma mem_write_then_read_witness :
  well_sized blank_machine /\ 0 <= 0x4000 < 0xFFFF /\ 0x4000 <> MR_KBSR /\
  exists s',
    mem_write 0x4000 7 blank_machine = Ok (tt, s') /\
    mem_read 0x4000 s' = Ok (7, s') /\
    (forall b, 0 <= b -> b <> 0x4000 -> cell b s' = cell b blank_machine) /\
    registers s' = registers blank_machine /\
    stdin s' = stdin blank_machine /\ stdout s' = stdout blank_machine.
Proof.
  split; [apply well_sized_blank | split; [lia | split; [discriminate |]]].
  apply (mem_write_then_read 0x4000 7 blank_machine);
    [apply well_sized_blank | lia | discriminate].
Defined.


Lemma sext_field i n :
  1 <= n <= 16 ->
  sign_extend (Z.land i (Z.ones n)) n = wrap16 (twos_complement n (field i 0 n)).
Proof.
  intros Hn. rewrite land_mask by lia.
  rewrite sign_extend_spec by (try apply Z.mod_pos_bound; lia).
  unfold field. rewrite Z.pow_0_r, Z.div_1_r. reflexivity.
Qed.

Lemma pc_relative_eq i s :
  wrap16 (reg R_PC s + sign_extend (Z.land i 0x1FF) 9) = pc_relative i s.
Proof.
  change 0x1FF with (Z.ones 9). rewrite sext_field by lia.
  apply wrap16_add_r.
Qed.

Lemma base_offset_eq i s :
  wrap16 (reg (Z.land (Z.shiftr i 6) 0x7) s + sign_extend (Z.land i 0x3F) 6)
  = base_offset i s.
Proof.
  change 0x3F with (Z.ones 6). rewrite sext_field, land7_field by lia.
  apply wrap16_add_r.
Qed.

Lemma update_flags_sets r s :
  exists c, update_flags r s
    = Ok (tt, with_registers (<[Z.to_nat R_COND := c]> (registers s)) s).
Proof.
  unfold update_flags, bind, get_reg, set_reg. cbv beta iota.
  destruct (_ =? 0); [eexists; reflexivity|].
  destruct (c_true _); eexists; reflexivity.
Qed.

(** The end of every load: the value goes to the destination register and
    the flags are updated; nothing else changes. *)
Lemma load_into r v s :
  length (registers s) = Z.to_nat R_COUNT -> 0 <= r < 8 ->
  exists s',
    bind (set_reg r v) (fun _ => update_flags r) s = Ok (tt, s') /\
    reg r s' = v /\
    (forall r', 0 <= r' -> r' <> r -> r' <> R_COND -> reg r' s' = reg r' s) /\
    memory s' = memory s /\ stdin s' = stdin s /\ stdout s' = stdout s /\
    running s' = running s /\ length (registers s') = length (registers s).
Proof.
  intros Hlen Hr.
  set (s1 := with_registers (<[Z.to_nat r := v]> (registers s)) s).
  destruct (update_flags_sets r s1) as [c Hc].
  eexists. split; [unfold bind, set_reg; fold s1; exact Hc|].
  split; [|split; [|split; [reflexivity | split; [reflexivity |
    split; [reflexivity | split; [reflexivity |]]]]]];
    [| | cbn [registers with_registers s1]; rewrite !length_insert; reflexivity].
  - rewrite reg_set_ne by (unfold R_COND; lia).
    apply reg_set_eq; [unfold R_COUNT; lia | assumption].
  - intros r' Hr' Hne Hcond.
    rewrite reg_set_ne by (unfold R_COND in *; lia).
    apply reg_set_ne; lia.
Qed.

Lemma st_eq i s :
  st i s = mem_write (pc_relative i s) (reg (field i 9 3) s) s.
Proof.
  unfold st, bind, get_reg. cbv beta iota zeta.
  fold (reg R_PC s). rewrite pc_relative_eq.
  fold (reg (Z.land (Z.shiftr i 9) 0x7) s). rewrite land7_field by lia.
  reflexivity.
Qed.

Lemma str_eq i s :
  str i s = mem_write (base_offset i s) (reg (field i 9 3) s) s.
Proof.
  unfold str, bind, get_reg. cbv beta iota zeta.
  fold (reg (Z.land (Z.shiftr i 6) 0x7) s). rewrite base_offset_eq.
  fold (reg (Z.land (Z.shiftr i 9) 0x7) s). rewrite land7_field by lia.
  reflexivity.
Qed.

Lemma sti_eq i s :
  sti i s =
    bind (mem_read (pc_relative i s))
         (fun pointer s1 => mem_write pointer (reg (field i 9 3) s1) s1) s.
Proof.
  unfold sti, bind, get_reg. cbv beta iota zeta.
  fold (reg R_PC s). rewrite pc_relative_eq.
  destruct (mem_read (pc_relative i s) s) as [[p s1]| |]; [|reflexivity..].
  fold (reg (Z.land (Z.shiftr i 9) 0x7) s1). rewrite land7_field by lia.
  reflexivity.
Qed.

Lemma ld_eq i s :
  ld i s =
    bind (mem_read (pc_relative i s))
         (fun v => bind (set_reg (field i 9 3) v)
                        (fun _ => update_flags (field i 9 3))) s.
Proof.
  unfold ld. cbv zeta. rewrite land7_field by lia.
  unfold bind at 1, get_reg at 1. cbv beta iota.
  fold (reg R_PC s). rewrite pc_relative_eq. reflexivity.
Qed.

Lemma ldr_eq i s :
  ldr i s =
    bind (mem_read (base_offset i s))
         (fun v => bind (set_reg (field i 9 3) v)
                        (fun _ => update_flags (field i 9 3))) s.
Proof.
  unfold ldr. cbv zeta.
  unfold bind at 1, get_reg at 1. cbv beta iota.
  fold (reg (Z.land (Z.shiftr i 6) 0x7) s). rewrite base_offset_eq.
  rewrite land7_field by lia. reflexivity.
Qed.

Lemma ldi_eq i s :
  ldi i s =
    bind (mem_read (pc_relative i s))
         (fun pointer =>
            bind (mem_read pointer)
                 (fun v => bind (set_reg (field i 9 3) v)
                                (fun _ => update_flags (field i 9 3)))) s.
Proof.
  unfold ldi. cbv zeta. rewrite land7_field by lia.
  unfold bind at 1, get_reg at 1. cbv beta iota.
  fold (reg R_PC s). rewrite pc_relative_eq. reflexivity.
Qed.

Lemma field3_bound i lo : 0 <= field i lo 3 < 8.
Proof. apply (field_bound i lo 3). lia. Qed.

(** A load from a cell of the array other than the status register. *)
Lemma load_from a v dr s :
  length (registers s) = Z.to_nat R_COUNT ->
  cell a s = Some v -> a <> MR_KBSR -> 0 <= dr < 8 ->
  exists s2,
    bind (mem_read a)
         (fun x => bind (set_reg dr x) (fun _ => update_flags dr)) s
      = Ok (tt, s2) /\
    reg dr s2 = v /\ memory s2 = memory s.
Proof.
  intros Hlen Hv Hne Hdr.
  destruct (load_into dr v s Hlen Hdr) as (s2 & Hload & Hreg & _ & Hmem & _).
  exists s2. split; [|split; assumption].
  rewrite (bind_eq _ _ s v s) by (apply mem_read_cell; assumption).
  exact Hload.
Qed.

Lemma cell_same_memory a s s' : memory s' = memory s -> cell a s' = cell a s.
Proof. intros H. unfold cell. rewrite H. reflexivity. Qed.

(** X7. [ST] puts the register in the cell that its offset designates and
    changes nothing else; an [LD] that designates the same cell, executed
    in any state with that memory, loads the stored value. *)
Theorem st_then_ld (i j : Z) (s : machine) :
  well_sized s ->
  pc_relative i s < 0xFFFF -> pc_relative i s <> MR_KBSR ->
  exists s1,
    st i s = Ok (tt, s1) /\ registers s1 = registers s /\
    cell (pc_relative i s) s1 = Some (reg (field i 9 3) s) /\
    forall s1',
      memory s1' = memory s1 -> length (registers s1') = Z.to_nat R_COUNT ->
      pc_relative j s1' = pc_relative i s ->
      exists s2, ld j s1' = Ok (tt, s2) /\
                 reg (field j 9 3) s2 = reg (field i 9 3) s.
Proof.
  intros Hs Ha Hne.
  assert (Hpos : 0 <= pc_relative i s) by apply wrap16_u16.
  assert (Hc : is_Some (cell (pc_relative i s) s))
    by (apply cell_in_bounds; [assumption | unfold UINT16_MAX; lia]).
  eexists. split; [rewrite st_eq; apply mem_write_ok; assumption|].
  split; [reflexivity|].
  split; [apply cell_store_eq; assumption|].
  intros s1' Hmem Hlen Hpc.
  destruct (load_from (pc_relative i s) (reg (field i 9 3) s) (field j 9 3) s1')
    as (s2 & Hld & Hreg & _);
    [assumption | | assumption | apply field3_bound |].
  - rewrite (cell_same_memory _ _ _ Hmem). apply cell_store_eq. assumption.
  - exists s2. rewrite ld_eq, Hpc. auto.
Qed.

(** X8. [STR] puts the register in the cell at base plus offset and changes
    nothing else; an [LDR] that designates the same cell, executed in any
    state with that memory, loads the stored value. *)
Theorem str_then_ldr (i j : Z) (s : machine) :
  well_sized s ->
  base_offset i s < 0xFFFF -> base_offset i s <> MR_KBSR ->
  exists s1,
    str i s = Ok (tt, s1) /\ registers s1 = registers s /\
    cell (base_offset i s) s1 = Some (reg (field i 9 3) s) /\
    forall s1',
      memory s1' = memory s1 -> length (registers s1') = Z.to_nat R_COUNT ->
      base_offset j s1' = base_offset i s ->
      exists s2, ldr j s1' = Ok (tt, s2) /\
                 reg (field j 9 3) s2 = reg (field i 9 3) s.
Proof.
  intros Hs Ha Hne.
  assert (Hpos : 0 <= base_offset i s) by apply wrap16_u16.
  assert (Hc : is_Some (cell (base_offset i s) s))
    by (apply cell_in_bounds; [assumption | unfold UINT16_MAX; lia]).
  eexists. split; [rewrite str_eq; apply mem_write_ok; assumption|].
  split; [reflexivity|].
  split; [apply cell_store_eq; assumption|].
  intros s1' Hmem Hlen Hpc.
  destruct (load_from (base_offset i s) (reg (field i 9 3) s) (field j 9 3) s1')
    as (s2 & Hld & Hreg & _);
    [assumption | | assumption | apply field3_bound |].
  - rewrite (cell_same_memory _ _ _ Hmem). apply cell_store_eq. assumption.
  - exists s2. rewrite ldr_eq, Hpc. auto.
Qed.

(** X9. [STI] stores through the pointer held in the cell that its offset
    designates; an [LDI] through the same pointer cell, executed in any
    state with that memory, loads the stored value, provided the pointer
    does not point to its own cell. *)
Theorem sti_then_ldi (i j pointer : Z) (s : machine) :
  well_sized s ->
  pc_relative i s <> MR_KBSR ->
  cell (pc_relative i s) s = Some pointer ->
  0 <= pointer < 0xFFFF -> pointer <> MR_KBSR -> pointer <> pc_relative i s ->
  exists s1,
    sti i s = Ok (tt, s1) /\ registers s1 = registers s /\
    cell pointer s1 = Some (reg (field i 9 3) s) /\
    cell (pc_relative i s) s1 = Some pointer /\
    forall s1',
      memory s1' = memory s1 -> length (registers s1') = Z.to_nat R_COUNT ->
      pc_relative j s1' = pc_relative i s ->
      exists s2, ldi j s1' = Ok (tt, s2) /\
                 reg (field j 9 3) s2 = reg (field i 9 3) s.
Proof.
  intros Hs Hne Hp Hpr Hpne Hself.
  assert (Hpos : 0 <= pc_relative i s) by apply wrap16_u16.
  assert (Hc : is_Some (cell pointer s))
    by (apply cell_in_bounds; [assumption | unfold UINT16_MAX; lia]).
  set (s1 := with_memory (<[Z.to_nat pointer := reg (field i 9 3) s]> (memory s)) s).
  assert (Hv : cell pointer s1 = Some (reg (field i 9 3) s))
    by (apply cell_store_eq; assumption).
  assert (Hp1 : cell (pc_relative i s) s1 = Some pointer)
    by (unfold s1; rewrite cell_store_ne by lia; exact Hp).
  exists s1. split.
  { rewrite sti_eq.
    rewrite (bind_eq _ _ s pointer s) by (apply mem_read_cell; assumption).
    apply mem_write_ok. assumption. }
  split; [reflexivity|]. split; [exact Hv|]. split; [exact Hp1|].
  intros s1' Hmem Hlen Hpc.
  destruct (load_from pointer (reg (field i 9 3) s) (field j 9 3) s1')
    as (s2 & Hld & Hreg & _);
    [assumption | | assumption | apply field3_bound |].
  - rewrite (cell_same_memory _ _ _ Hmem). exact Hv.
  - exists s2. split; [|exact Hreg]. rewrite ldi_eq, Hpc.
    rewrite (bind_eq _ _ s1' pointer s1'); [exact Hld|].
    apply mem_read_cell; [assumption|].
    rewrite (cell_same_memory _ _ _ Hmem). exact Hp1.
Qed.

(** ** The dispatch of [execute] *)

Ltac dispatch := unfold execute; cbv zeta; intros ->; reflexivity.

Lemma execute_add i : Z.shiftr i 12 = OP_ADD -> execute i = add i.
Proof. dispatch. Qed.
Lemma execute_and i : Z.shiftr i 12 = OP_AND -> execute i = and i.
Proof. dispatch. Qed.
Lemma execute_not i : Z.shiftr i 12 = OP_NOT -> execute i = not i.
Proof. dispatch. Qed.
Lemma execute_br i : Z.shiftr i 12 = OP_BR -> execute i = br i.
Proof. dispatch. Qed.
Lemma execute_jmp i : Z.shiftr i 12 = OP_JMP -> execute i = jmp i.
Proof. dispatch. Qed.
Lemma execute_jsr i : Z.shiftr i 12 = OP_JSR -> execute i = jsr i.
Proof. dispatch. Qed.
Lemma execute_ld i : Z.shiftr i 12 = OP_LD -> execute i = ld i.
Proof. dispatch. Qed.
Lemma execute_ldi i : Z.shiftr i 12 = OP_LDI -> execute i = ldi i.
Proof. dispatch. Qed.
Lemma execute_ldr i : Z.shiftr i 12 = OP_LDR -> execute i = ldr i.
Proof. dispatch. Qed.
Lemma execute_lea i : Z.shiftr i 12 = OP_LEA -> execute i = lea i.
Proof. dispatch. Qed.
Lemma execute_st i : Z.shiftr i 12 = OP_ST -> execute i = st i.
Proof. dispatch. Qed.
Lemma execute_sti i : Z.shiftr i 12 = OP_STI -> execute i = sti i.
Proof. dispatch. Qed.
Lemma execute_str i : Z.shiftr i 12 = OP_STR -> execute i = str i.
Proof. dispatch. Qed.
Lemma execute_trap i :
  Z.shiftr i 12 = OP_TRAP -> execute i = trap i addr_of_main_running.
Proof. dispatch. Qed.

(** ** Instructions on registers *)

Ltac registers_only h :=
  unfold h, update_flags, bind, get_reg, set_reg; cbv beta iota zeta;
  repeat match goal with
         | |- context [if ?b then _ else _] => destruct b; cbv beta iota
         end;
  eexists; (split; [reflexivity |]);
  cbn [registers with_registers]; rewrite ?length_insert; reflexivity.

Lemma add_registers i s :
  exists regs, add i s = Ok (tt, with_registers regs s) /\
               length regs = length (registers s).
Proof. registers_only add. Qed.
Lemma and_registers i s :
  exists regs, and i s = Ok (tt, with_registers regs s) /\
               length regs = length (registers s).
Proof. registers_only and. Qed.
Lemma not_registers i s :
  exists regs, not i s = Ok (tt, with_registers regs s) /\
               length regs = length (registers s).
Proof. registers_only not. Qed.
Lemma br_registers i s :
  exists regs, br i s = Ok (tt, with_registers regs s) /\
               length regs = length (registers s).
Proof.
  unfold br, bind, get_reg, set_reg; cbv beta iota zeta.
  destruct (c_true _); cbv beta iota.
  - eexists. split; [reflexivity|]. cbn [registers with_registers].
    rewrite ?length_insert; reflexivity.
  - exists (registers s). split; [destruct s; reflexivity | reflexivity].
Qed.
Lemma jmp_registers i s :
  exists regs, jmp i s = Ok (tt, with_registers regs s) /\
               length regs = length (registers s).
Proof. registers_only jmp. Qed.
Lemma jsr_registers i s :
  exists regs, jsr i s = Ok (tt, with_registers regs s) /\
               length regs = length (registers s).
Proof. registers_only jsr. Qed.
Lemma lea_registers i s :
  exists regs, lea i s = Ok (tt, with_registers regs s) /\
               length regs = length (registers s).
Proof. registers_only lea. Qed.

(** X10. An instruction whose opcode is ADD, AND, NOT, BR, JMP, JSR or LEA
    always completes and changes registers only: memory, pending input,
    output and the execution flag are as before, and the register array
    keeps its size. *)
Theorem register_only_instructions (i : Z) (s : machine) :
  register_only (Z.shiftr i 12) = true ->
  exists regs,
    execute i s = Ok (tt, with_registers regs s) /\
    length regs = length (registers s).
Proof.
  unfold register_only. rewrite !orb_true_iff, !Z.eqb_eq.
  intros [[[[[[H | H] | H] | H] | H] | H] | H].
  - rewrite execute_add by assumption. apply add_registers.
  - rewrite execute_and by assumption. apply and_registers.
  - rewrite execute_not by assumption. apply not_registers.
  - rewrite execute_br by assumption. apply br_registers.
  - rewrite execute_jmp by assumption. apply jmp_registers.
  - rewrite execute_jsr by assumption. apply jsr_registers.
  - rewrite execute_lea by assumption. apply lea_registers.
Qed.

Lemma wrap16_lnot a : u16 a -> wrap16 (Z.lnot a) = 65535 - a.
Proof.
  unfold u16, wrap16. intros Ha. rewrite Z.lnot_eq_pred_opp.
  replace (- a - 1) with (65535 - a + (-1) * 65536) by lia.
  rewrite Z.mod_add by lia. apply Z.mod_small. lia.
Qed.

Lemma not_eq i s :
  not i s =
    bind (set_reg (field i 9 3) (wrap16 (Z.lnot (reg (field i 6 3) s))))
         (fun _ => update_flags (field i 9 3)) s.
Proof.
  unfold not. cbv zeta. rewrite !land7_field by lia. reflexivity.
Qed.

(** X11. [NOT] always completes on a machine whose arrays have their sizes;
    the destination register receives the 16-bit complement of the source:
    0xFFFF minus its value, every one of the 16 bits inverted.  A second
    [NOT] from that register gives the original value back. *)
Theorem not_complements (i j : Z) (s : machine) :
  well_formed s ->
  exists s',
    not i s = Ok (tt, s') /\
    reg (field i 9 3) s' = 0xFFFF - reg (field i 6 3) s /\
    (forall k, 0 <= k < 16 ->
       Z.testbit (reg (field i 9 3) s') k
       = negb (Z.testbit (reg (field i 6 3) s) k)) /\
    (field j 6 3 = field i 9 3 ->
     exists s'', not j s' = Ok (tt, s'') /\
                 reg (field j 9 3) s'' = reg (field i 6 3) s).
Proof.
  intros Hwf.
  assert (Hlen : length (registers s) = Z.to_nat R_COUNT) by apply Hwf.
  assert (Hsrc : u16 (reg (field i 6 3) s)).
  { apply well_formed_reg; [assumption|].
    pose proof (field3_bound i 6). unfold R_COUNT. lia. }
  destruct (load_into (field i 9 3) (wrap16 (Z.lnot (reg (field i 6 3) s))) s
              Hlen (field3_bound i 9))
    as (s' & Hrun & Hd & _ & _ & _ & _ & _ & Hlen').
  exists s'. rewrite not_eq. split; [exact Hrun|].
  rewrite Hd. split; [apply wrap16_lnot; assumption|]. split.
  - intros k Hk. unfold wrap16. change 65536 with (2 ^ 16).
    rewrite Z.mod_pow2_bits_low by lia. apply Z.lnot_spec. lia.
  - intros Hj.
    destruct (load_into (field j 9 3) (wrap16 (Z.lnot (reg (field j 6 3) s'))) s'
                ltac:(congruence) (field3_bound j 9))
      as (s'' & Hrun' & Hd' & _).
    exists s''. rewrite not_eq. split; [exact Hrun'|].
    rewrite Hd', Hj, Hd, !wrap16_lnot by (try apply wrap16_u16; assumption).
    lia.
Qed.

(** X12. [BR] always completes.  When the three condition bits of the
    instruction have no bit in common with the condition register nothing
    changes; otherwise the program counter moves by the sign-extended 9-bit
    offset and every other register is as before.  In particular no branch
    is taken while the condition register is 0, as it is when [main] enters
    the loop. *)
Theorem br_taken_on_common_flag (i : Z) (s : machine) :
  length (registers s) = Z.to_nat R_COUNT ->
  (Z.land (field i 9 3) (reg R_COND s) = 0 -> br i s = Ok (tt, s)) /\
  (Z.land (field i 9 3) (reg R_COND s) <> 0 ->
     exists s', br i s = Ok (tt, s') /\
       reg R_PC s' = pc_relative i s /\
       (forall r, 0 <= r -> r <> R_PC -> reg r s' = reg r s) /\
       memory s' = memory s /\ stdin s' = stdin s /\ stdout s' = stdout s) /\
  (reg R_COND s = 0 -> br i s = Ok (tt, s)).
Proof.
  intros Hlen.
  assert (Hnot : Z.land (field i 9 3) (reg R_COND s) = 0 -> br i s = Ok (tt, s)).
  { intros H. unfold br, bind, get_reg. cbv beta iota zeta.
    fold (reg R_COND s). rewrite land7_field by lia. rewrite H. reflexivity. }
  split; [exact Hnot|]. split.
  - intros H. unfold br, bind, get_reg, set_reg. cbv beta iota zeta.
    fold (reg R_COND s). rewrite land7_field by lia.
    unfold c_true. rewrite (proj2 (Z.eqb_neq _ _) H). cbv beta iota delta [negb].
    fold (reg R_PC s). rewrite pc_relative_eq.
    eexists. split; [reflexivity|].
    split; [apply reg_set_eq; [unfold R_PC, R_COUNT; lia | assumption]|].
    split; [|repeat split].
    intros r Hr Hne. apply reg_set_ne; [unfold R_PC; lia | assumption | congruence].
  - intros H. apply Hnot. rewrite H. apply Z.land_0_r.
Qed.

Lemma jsr_result i s :
  exists target,
    jsr i s = Ok (tt, with_registers
                        (<[Z.to_nat R_PC := target]>
                           (<[Z.to_nat R7 := reg R_PC s]> (registers s))) s).
Proof.
  unfold jsr, bind, get_reg, set_reg. cbv beta iota zeta.
  destruct (c_true _); eexists; reflexivity.
Qed.

(** X13. Call and return: after [JSR] or [JSRR], a [JMP] through R7 (the
    [RET] instruction) puts the program counter back to the value it had
    when the call was executed, that is to the instruction after the
    call. *)
Theorem call_then_return (i j : Z) (s : machine) :
  length (registers s) = Z.to_nat R_COUNT ->
  field j 6 3 = R7 ->
  exists s1 s2,
    jsr i s = Ok (tt, s1) /\ jmp j s1 = Ok (tt, s2) /\
    reg R_PC s2 = reg R_PC s /\
    memory s2 = memory s /\ stdout s2 = stdout s.
Proof.
  intros Hlen Hj. destruct (jsr_result i s) as [target Hjsr].
  eexists. eexists. split; [exact Hjsr|]. split.
  - unfold jmp, bind, get_reg, set_reg. cbv beta iota zeta. reflexivity.
  - split; [|split; reflexivity].
    rewrite land7_field, Hj by lia.
    unfold reg. cbn [registers with_registers].
    change (Z.to_nat R7) with 7%nat. change (Z.to_nat R_PC) with 8%nat.
    rewrite list_lookup_total_insert_eq by (rewrite !length_insert, Hlen; unfold R_COUNT; lia).
    rewrite list_lookup_total_insert_ne by lia.
    apply list_lookup_total_insert_eq. rewrite Hlen. unfold R_COUNT. lia.
Qed.

(** ** What memory accesses leave alone *)

Lemma mem_store_inv a v s u s' :
  mem_store a v s = Ok (u, s') ->
  s' = with_memory (<[Z.to_nat a := v]> (memory s)) s.
Proof.
  unfold mem_store. destruct (memory s !! Z.to_nat a); [|discriminate].
  intros H. injection H as _ <-. reflexivity.
Qed.

Lemma mem_load_inv a s v s' : mem_load a s = Ok (v, s') -> s' = s.
Proof.
  unfold mem_load. destruct (memory s !! Z.to_nat a); [|discriminate].
  intros H. injection H as _ <-. reflexivity.
Qed.

Lemma mem_read_frame a s v s' :
  mem_read a s = Ok (v, s') ->
  registers s' = registers s /\ stdout s' = stdout s /\
  running s' = running s /\ length (memory s') = length (memory s).
Proof.
  unfold mem_read. intros H. apply bind_Ok in H as (u & s1 & Hpoll & Hload).
  apply mem_load_inv in Hload as ->.
  destruct (a =? MR_KBSR).
  - apply bind_Ok in Hpoll as (key & s0 & Hkey & Hpoll).
    rewrite check_key_readable in Hkey. injection Hkey as <- <-.
    destruct (readable s).
    + apply bind_Ok in Hpoll as (u1 & s2 & Hst & Hpoll).
      apply mem_store_inv in Hst as ->.
      apply bind_Ok in Hpoll as (ch & s3 & Hget & Hst).
      match type of Hget with
      | getchar ?st = _ => destruct (getchar_next st) as (c & Hg & _)
      end.
      rewrite Hg in Hget. injection Hget as <- <-.
      apply mem_store_inv in Hst as ->.
      cbn [registers stdout running memory with_memory with_stdin with_polls].
      rewrite !length_insert. auto.
    + apply mem_store_inv in Hpoll as ->.
      cbn [registers stdout running memory with_memory with_polls].
      rewrite length_insert. auto.
  - unfold ret in Hpoll. injection Hpoll as _ <-. auto.
Qed.

(** X14. The store instructions ST, STI and STR change no register: the
    general-purpose registers, the program counter and the condition
    register are as before; so are the output and the size of memory. *)
Theorem stores_keep_registers (i : Z) (s s' : machine) (u : unit) :
  Z.shiftr i 12 = OP_ST \/ Z.shiftr i 12 = OP_STI \/ Z.shiftr i 12 = OP_STR ->
  execute i s = Ok (u, s') ->
  registers s' = registers s /\ stdout s' = stdout s /\
  running s' = running s /\ length (memory s') = length (memory s).
Proof.
  intros [H | [H | H]].
  - rewrite execute_st, st_eq by assumption. intros Hrun.
    apply mem_store_inv in Hrun as ->.
    cbn [registers stdout running memory with_memory]. rewrite length_insert. auto.
  - rewrite execute_sti, sti_eq by assumption. intros Hrun.
    apply bind_Ok in Hrun as (p & s1 & Hread & Hwrite).
    apply mem_read_frame in Hread as (Hr & Ho & Hf & Hl).
    apply mem_store_inv in Hwrite as ->.
    cbn [registers stdout running memory with_memory]. rewrite length_insert. auto.
  - rewrite execute_str, str_eq by assumption. intros Hrun.
    apply mem_store_inv in Hrun as ->.
    cbn [registers stdout running memory with_memory]. rewrite length_insert. auto.
Qed.

(** ** Polling the keyboard from a program *)

Lemma write_flags_explicit r v s :
  length (registers s) = Z.to_nat R_COUNT -> 0 <= r < 8 -> u16 v ->
  bind (set_reg r v) (fun _ => update_flags r) s
  = Ok (tt, with_registers
              (<[Z.to_nat R_COND := flag_of v]>
                 (<[Z.to_nat r := v]> (registers s))) s).
Proof.
  intros Hlen Hr Hv. unfold bind, set_reg.
  set (s1 := with_registers (<[Z.to_nat r := v]> (registers s)) s).
  assert (H1 : reg r s1 = v) by (apply reg_set_eq; [unfold R_COUNT; lia | assumption]).
  rewrite update_flags_flag_of by (rewrite H1; assumption).
  rewrite H1. reflexivity.
Qed.

(** X15. [LDI] through a pointer to the keyboard status register polls the
    keyboard.  When [select] reports that nothing can be read, the
    destination register is 0, the flag is ZERO, and the keyboard data
    register and the input stream are as before.  When [select] reports
    the descriptor readable, the destination register is 0x8000, the flag
    is NEGATIVE, and the keyboard data register holds what [getchar]
    returned: the next byte of the stream, which is consumed, or 0xFFFF
    when the stream is at its end. *)
Theorem ldi_polls_keyboard (i : Z) (s : machine) :
  well_sized s ->
  pc_relative i s <> MR_KBSR ->
  cell (pc_relative i s) s = Some MR_KBSR ->
  exists s',
    ldi i s = Ok (tt, s') /\
    if readable s then
      reg (field i 9 3) s' = 0x8000 /\ reg R_COND s' = FLG_NEG /\
      match stdin s with
      | c :: rest => cell MR_KBDR s' = Some (to_uchar c) /\ stdin s' = rest
      | [] => cell MR_KBDR s' = Some 0xFFFF /\ stdin s' = []
      end
    else
      reg (field i 9 3) s' = 0 /\ reg R_COND s' = FLG_ZRO /\
      cell MR_KBDR s' = cell MR_KBDR s /\ stdin s' = stdin s.
Proof.
  intros Hs Hne Hp.
  destruct (mem_read_status s Hs)
    as (s1 & Hread & Hregs & _ & _ & Hs1 & _ & Hin & _ & _ & Hdata).
  pose proof (field3_bound i 9) as Hdr.
  set (r := if readable s then 0x8000 else 0) in *.
  assert (Hr : u16 r) by (unfold r, u16; destruct (readable s); lia).
  eexists. split.
  - rewrite ldi_eq.
    rewrite (bind_eq _ _ s MR_KBSR s) by (apply mem_read_cell; assumption).
    rewrite (bind_eq _ _ s r s1) by exact Hread.
    apply write_flags_explicit; [apply Hs1 | assumption | assumption].
  - assert (Hd : forall st, reg (field i 9 3)
               (with_registers (<[Z.to_nat R_COND := flag_of r]>
                  (<[Z.to_nat (field i 9 3) := r]> (registers s1))) st) = r).
    { intros st. unfold reg. cbn [registers with_registers].
      rewrite list_lookup_total_insert_ne by (unfold R_COND; lia).
      apply list_lookup_total_insert_eq. destruct Hs1 as [_ ->]. unfold R_COUNT. lia. }
    assert (Hc : forall st, reg R_COND
               (with_registers (<[Z.to_nat R_COND := flag_of r]>
                  (<[Z.to_nat (field i 9 3) := r]> (registers s1))) st) = flag_of r).
    { intros st. unfold reg. cbn [registers with_registers].
      apply list_lookup_total_insert_eq. rewrite length_insert.
      destruct Hs1 as [_ ->]. unfold R_COND, R_COUNT. lia. }
    rewrite Hd, Hc. unfold r. destruct (readable s).
    + split; [reflexivity | split; [reflexivity |]].
      destruct (stdin s) as [|c rest] eqn:Hi.
      * split; [|exact Hin].
        change (cell MR_KBDR s1 = Some 0xFFFF).
        rewrite Hdata, (next_char_end s Hi). reflexivity.
      * split; [|exact Hin].
        change (cell MR_KBDR s1 = Some (to_uchar c)).
        rewrite Hdata, (next_char_byte c rest s Hi). reflexivity.
    + split; [reflexivity | split; [reflexivity | split; [exact Hdata | exact Hin]]].
Qed.

(** ** Where [abort()] is called *)

Lemma never_aborts_ret {A} (a : A) : never_aborts (ret a).
Proof. intros s. discriminate. Qed.

Lemma never_aborts_bind {A B} (m : M A) (f : A -> M B) :
  never_aborts m -> (forall a, never_aborts (f a)) -> never_aborts (bind m f).
Proof.
  intros Hm Hf s. unfold bind. specialize (Hm s).
  destruct (m s) as [[a s']| |]; [apply Hf | contradiction | discriminate].
Qed.

Lemma never_aborts_get_reg r : never_aborts (get_reg r).
Proof. intros s. discriminate. Qed.
Lemma never_aborts_set_reg r v : never_aborts (set_reg r v).
Proof. intros s. discriminate. Qed.
Lemma never_aborts_mem_load a : never_aborts (mem_load a).
Proof. intros s. unfold mem_load. destruct (_ !! _); discriminate. Qed.
Lemma never_aborts_mem_store a v : never_aborts (mem_store a v).
Proof. intros s. unfold mem_store. destruct (_ !! _); discriminate. Qed.
Lemma never_aborts_check_key : never_aborts check_key.
Proof. intros s. rewrite check_key_readable. discriminate. Qed.
Lemma never_aborts_getchar : never_aborts getchar.
Proof. intros s. unfold getchar. destruct (stdin s); discriminate. Qed.
Lemma never_aborts_putc c : never_aborts (putc c).
Proof. intros s. discriminate. Qed.
Lemma never_aborts_put_bytes bs : never_aborts (put_bytes bs).
Proof. intros s. discriminate. Qed.

Create HintDb no_abort.
#[local] Hint Resolve never_aborts_ret never_aborts_get_reg never_aborts_set_reg
  never_aborts_mem_load never_aborts_mem_store never_aborts_check_key
  never_aborts_getchar never_aborts_putc never_aborts_put_bytes : no_abort.

Ltac no_abort :=
  lazymatch goal with
  | |- never_aborts (bind _ _) =>
      apply never_aborts_bind; [no_abort | intros ?; no_abort]
  | |- never_aborts (if ?b then _ else _) => destruct b; no_abort
  | |- _ => first [solve [auto with no_abort] | eassumption | idtac]
  end.

Ltac no_abort_in h := intros; unfold h; cbv zeta; no_abort.

Lemma never_aborts_mem_read a : never_aborts (mem_read a).
Proof. no_abort_in mem_read. Qed.
Lemma never_aborts_mem_write a v : never_aborts (mem_write a v).
Proof. no_abort_in mem_write. Qed.
Lemma never_aborts_update_flags r : never_aborts (update_flags r).
Proof. no_abort_in update_flags. Qed.
#[local] Hint Resolve never_aborts_mem_read never_aborts_mem_write
  never_aborts_update_flags : no_abort.

Lemma never_aborts_add i : never_aborts (add i).
Proof. no_abort_in add. Qed.
Lemma never_aborts_and i : never_aborts (and i).
Proof. no_abort_in and. Qed.
Lemma never_aborts_not i : never_aborts (not i).
Proof. no_abort_in not. Qed.
Lemma never_aborts_br i : never_aborts (br i).
Proof. no_abort_in br. Qed.
Lemma never_aborts_jmp i : never_aborts (jmp i).
Proof. no_abort_in jmp. Qed.
Lemma never_aborts_jsr i : never_aborts (jsr i).
Proof. no_abort_in jsr. Qed.
Lemma never_aborts_ld i : never_aborts (ld i).
Proof. no_abort_in ld. Qed.
Lemma never_aborts_ldi i : never_aborts (ldi i).
Proof. no_abort_in ldi. Qed.
Lemma never_aborts_ldr i : never_aborts (ldr i).
Proof. no_abort_in ldr. Qed.
Lemma never_aborts_lea i : never_aborts (lea i).
Proof. no_abort_in lea. Qed.
Lemma never_aborts_st i : never_aborts (st i).
Proof. no_abort_in st. Qed.
Lemma never_aborts_sti i : never_aborts (sti i).
Proof. no_abort_in sti. Qed.
Lemma never_aborts_str i : never_aborts (str i).
Proof. no_abort_in str. Qed.

Lemma never_aborts_puts_loop cells : never_aborts (puts_loop cells).
Proof.
  induction cells as [|c rest IH]; cbn [puts_loop].
  - intros s. discriminate.
  - no_abort.
Qed.
Lemma never_aborts_putsp_loop cells : never_aborts (putsp_loop cells).
Proof.
  induction cells as [|c rest IH]; cbn [putsp_loop].
  - intros s. discriminate.
  - cbv zeta. no_abort.
Qed.

Lemma never_aborts_trap i p : never_aborts (trap i p).
Proof.
  unfold trap. cbv zeta.
  repeat match goal with
         | |- never_aborts (if ?b then _ else _) => destruct b
         end.
  - no_abort_in trap_getc.
  - no_abort_in trap_out.
  - unfold trap_puts. apply never_aborts_bind; [auto with no_abort|].
    intros r0 s. apply never_aborts_puts_loop.
  - no_abort_in trap_in.
  - unfold trap_putsp. apply never_aborts_bind; [auto with no_abort|].
    intros r0 s. apply never_aborts_putsp_loop.
  - unfold halt. no_abort.
  - auto with no_abort.
Qed.

(** X16. [abort()] is called for the two unused opcodes and for nothing
    else: executing a 16-bit instruction word ends in [abort()] exactly
    when its opcode is RTI or RES. *)
Theorem abort_only_on_unused_opcode (i : Z) (s : machine) :
  u16 i ->
  execute i s = Aborted <->
  Z.shiftr i 12 = OP_RTI \/ Z.shiftr i 12 = OP_RES.
Proof.
  intros Hi.
  assert (Hop : 0 <= Z.shiftr i 12 < 16).
  { rewrite Z.shiftr_div_pow2 by lia. change (2 ^ 12) with 4096. unfold u16 in Hi.
    split; [apply Z.div_pos; lia | apply Z.div_lt_upper_bound; lia]. }
  split.
  - intros Habort.
    destruct (Z.eq_dec (Z.shiftr i 12) OP_RTI) as [|H8]; [auto|].
    destruct (Z.eq_dec (Z.shiftr i 12) OP_RES) as [|H13]; [auto|].
    exfalso. unfold OP_RTI, OP_RES in *.
    assert (Hc : Z.shiftr i 12 = OP_BR \/ Z.shiftr i 12 = OP_ADD \/
                 Z.shiftr i 12 = OP_LD \/ Z.shiftr i 12 = OP_ST \/
                 Z.shiftr i 12 = OP_JSR \/ Z.shiftr i 12 = OP_AND \/
                 Z.shiftr i 12 = OP_LDR \/ Z.shiftr i 12 = OP_STR \/
                 Z.shiftr i 12 = OP_NOT \/ Z.shiftr i 12 = OP_LDI \/
                 Z.shiftr i 12 = OP_STI \/ Z.shiftr i 12 = OP_JMP \/
                 Z.shiftr i 12 = OP_LEA \/ Z.shiftr i 12 = OP_TRAP)
      by (unfold OP_BR, OP_ADD, OP_LD, OP_ST, OP_JSR, OP_AND, OP_LDR, OP_STR,
            OP_NOT, OP_LDI, OP_STI, OP_JMP, OP_LEA, OP_TRAP; lia).
    revert Habort.
    destruct Hc as [H|[H|[H|[H|[H|[H|[H|[H|[H|[H|[H|[H|[H|H]]]]]]]]]]]]].
    + rewrite execute_br by assumption. apply never_aborts_br.
    + rewrite execute_add by assumption. apply never_aborts_add.
    + rewrite execute_ld by assumption. apply never_aborts_ld.
    + rewrite execute_st by assumption. apply never_aborts_st.
    + rewrite execute_jsr by assumption. apply never_aborts_jsr.
    + rewrite execute_and by assumption. apply never_aborts_and.
    + rewrite execute_ldr by assumption. apply never_aborts_ldr.
    + rewrite execute_str by assumption. apply never_aborts_str.
    + rewrite execute_not by assumption. apply never_aborts_not.
    + rewrite execute_ldi by assumption. apply never_aborts_ldi.
    + rewrite execute_sti by assumption. apply never_aborts_sti.
    + rewrite execute_jmp by assumption. apply never_aborts_jmp.
    + rewrite execute_lea by assumption. apply never_aborts_lea.
    + rewrite execute_trap by assumption. apply never_aborts_trap.
  - unfold execute. cbv zeta. intros [-> | ->]; reflexivity.
Qed.

(** ** The output traps *)

Lemma to_uchar_to_char c : to_uchar (to_char c) = to_uchar c.
Proof.
  unfold to_uchar, to_char.
  rewrite Zminus_mod_idemp_l.
  replace (c + 128 - 128) with c by lia. reflexivity.
Qed.

Lemma to_char_zero c : to_char c = 0 <-> c mod 256 = 0.
Proof.
  assert (Hc : c mod 256 = ((c + 128) mod 256 - 128) mod 256)
    by (rewrite Zminus_mod_idemp_l; f_equal; lia).
  unfold to_char. rewrite Hc.
  pose proof (Z.mod_pos_bound (c + 128) 256 ltac:(lia)) as Hb.
  set (t := (c + 128) mod 256) in *. split.
  - intros ->. reflexivity.
  - intros H. destruct (Z.lt_ge_cases t 128).
    + replace (t - 128) with (t + 128 + (-1) * 256) in H by lia.
      rewrite Z.mod_add, Z.mod_small in H by lia. lia.
    + rewrite Z.mod_small in H by lia. exact H.
Qed.

Lemma cells_from (ws : list Z) : forall (mem : list Z) (n : nat),
  (forall k w, ws !! k = Some w -> mem !! (n + k)%nat = Some w) ->
  mem !! (n + length ws)%nat = Some 0 ->
  drop n mem = ws ++ 0 :: drop (S (n + length ws)) mem.
Proof.
  induction ws as [|w ws IH]; intros mem n Hws Hend.
  - cbn [length app] in *. rewrite Nat.add_0_r in *. apply drop_S. exact Hend.
  - cbn [length app] in *.
    rewrite (drop_S mem w n) by (rewrite <- (Hws 0%nat w eq_refl); f_equal; lia).
    f_equal. rewrite (IH mem (S n)).
    + do 3 f_equal. lia.
    + intros k x Hk. rewrite <- (Hws (S k) x Hk). f_equal. lia.
    + rewrite <- Hend. f_equal. lia.
Qed.

Lemma puts_loop_output ws : forall rest s,
  Forall (fun c => c <> 0) ws ->
  puts_loop (ws ++ 0 :: rest) s
  = Ok (tt, with_stdout (stdout s ++ map to_uchar ws) s).
Proof.
  induction ws as [|w ws IH]; intros rest s Hws.
  - cbn [app puts_loop map c_true Z.eqb negb]. rewrite app_nil_r.
    destruct s; reflexivity.
  - apply Forall_cons in Hws as [Hw Hws].
    cbn [app puts_loop]. unfold c_true.
    rewrite (proj2 (Z.eqb_neq _ _) Hw). cbn [negb].
    unfold bind, putc. rewrite IH by assumption.
    rewrite to_uchar_to_char. cbn [stdout with_stdout map].
    rewrite <- app_assoc. reflexivity.
Qed.

Lemma puts_loop_unterminated cells s :
  Forall (fun c => c <> 0) cells -> puts_loop cells s = Undefined.
Proof.
  intros H. revert s. induction H as [|c cells Hc _ IH]; intros s.
  - reflexivity.
  - cbn [puts_loop]. unfold c_true. rewrite (proj2 (Z.eqb_neq _ _) Hc).
    cbn [negb]. unfold bind, putc. apply IH.
Qed.

(** X17. [PUTS] writes the string that starts at the address in R0: when
    the cells from there hold the non-zero words [ws] followed by a zero
    cell, the output grows by the low bytes of [ws], in order, and nothing
    else changes. *)
Theorem trap_puts_writes_string (ws : list Z) (s : machine) :
  Forall (fun c => c <> 0) ws ->
  (forall k w, ws !! k = Some w ->
     memory s !! (Z.to_nat (reg R0 s) + k)%nat = Some w) ->
  memory s !! (Z.to_nat (reg R0 s) + length ws)%nat = Some 0 ->
  trap_puts s = Ok (tt, with_stdout (stdout s ++ map to_uchar ws) s).
Proof.
  intros Hnz Hws Hend. unfold trap_puts, bind, get_reg. cbv beta iota.
  fold (reg R0 s). rewrite (cells_from ws (memory s) _ Hws Hend).
  apply puts_loop_output. assumption.
Qed.

(** X18. [PUTS] does not wrap around: when no cell from the address in R0
    to the end of the array is zero, the loop reads past the end of
    [memory]. *)
Theorem trap_puts_runs_off_the_array (s : machine) :
  Forall (fun c => c <> 0) (drop (Z.to_nat (reg R0 s)) (memory s)) ->
  trap_puts s = Undefined.
Proof.
  intros H. unfold trap_puts, bind, get_reg. cbv beta iota.
  apply puts_loop_unterminated. exact H.
Qed.

Lemma putsp_loop_output ws : forall rest s,
  Forall (fun c => c <> 0) ws ->
  putsp_loop (ws ++ 0 :: rest) s
  = Ok (tt, with_stdout (stdout s ++ flat_map packed_chars ws) s).
Proof.
  induction ws as [|w ws IH]; intros rest s Hws.
  - cbn [app putsp_loop flat_map c_true Z.eqb negb]. rewrite app_nil_r.
    destruct s; reflexivity.
  - apply Forall_cons in Hws as [Hw Hws].
    cbn [app putsp_loop]. unfold c_true at 1.
    rewrite (proj2 (Z.eqb_neq _ _) Hw). cbn [negb]. cbv zeta.
    assert (Hlow : to_uchar (to_char (Z.land w 0xFF)) = w mod 256).
    { rewrite to_uchar_to_char. change 0xFF with (Z.ones 8).
      rewrite land_mask by lia. unfold to_uchar. change (2 ^ 8) with 256.
      apply Z.mod_mod. lia. }
    assert (Hhigh : to_uchar (to_char (Z.shiftr w 8)) = w / 256 mod 256).
    { rewrite to_uchar_to_char, Z.shiftr_div_pow2 by lia. reflexivity. }
    unfold bind at 1, putc at 1. rewrite Hlow.
    unfold packed_chars at 1. cbn [flat_map].
    destruct (Z.eqb_spec (w / 256 mod 256) 0) as [Hz | Hnz].
    + assert (Hc : c_true (to_char (Z.shiftr w 8)) = false).
      { unfold c_true. apply negb_false_iff, Z.eqb_eq, to_char_zero.
        rewrite Z.shiftr_div_pow2 by lia. exact Hz. }
      rewrite Hc. unfold bind at 1, ret. rewrite IH by assumption.
      cbn [stdout with_stdout flat_map app]. rewrite <- app_assoc. reflexivity.
    + assert (Hc : c_true (to_char (Z.shiftr w 8)) = true).
      { unfold c_true. apply negb_true_iff, Z.eqb_neq.
        rewrite to_char_zero, Z.shiftr_div_pow2 by lia. exact Hnz. }
      rewrite Hc. unfold bind at 1, putc at 1. rewrite Hhigh, IH by assumption.
      cbn [stdout with_stdout flat_map app].
      rewrite <- !app_assoc. reflexivity.
Qed.

(** X19. [PUTSP] writes, for every non-zero cell from the address in R0 up
    to the first zero cell, the low byte of the cell and then its high byte
    when that byte is not zero; nothing else changes. *)
Theorem trap_putsp_writes_packed_string (ws : list Z) (s : machine) :
  Forall (fun c => c <> 0) ws ->
  (forall k w, ws !! k = Some w ->
     memory s !! (Z.to_nat (reg R0 s) + k)%nat = Some w) ->
  memory s !! (Z.to_nat (reg R0 s) + length ws)%nat = Some 0 ->
  trap_putsp s
  = Ok (tt, with_stdout (stdout s ++ flat_map packed_chars ws) s).
Proof.
  intros Hnz Hws Hend. unfold trap_putsp, bind, get_reg. cbv beta iota.
  fold (reg R0 s). rewrite (cells_from ws (memory s) _ Hws Hend).
  apply putsp_loop_output. assumption.
Qed.

(** ** The input traps *)

(** X20. [GETC] takes the next byte of the input into R0 and writes
    nothing; at the end of the input R0 receives 0xFFFF, the value of [EOF]
    as a [uint16_t].  The other registers, the flags among them, and memory
    are unchanged. *)
Theorem trap_getc_reads_without_echo (s : machine) :
  length (registers s) = Z.to_nat R_COUNT ->
  exists s',
    trap_getc s = Ok (tt, s') /\
    reg R0 s' = match stdin s with [] => 0xFFFF | c :: _ => to_uchar c end /\
    stdin s' = tail (stdin s) /\
    stdout s' = stdout s /\ memory s' = memory s /\
    (forall r, 0 < r -> reg r s' = reg r s).
Proof.
  intros Hlen. unfold trap_getc, bind, getchar, set_reg.
  destruct (stdin s) as [|c rest] eqn:Hin; cbv beta iota;
    (eexists; split; [reflexivity|]).
  - split; [apply reg_set_eq; [unfold R0, R_COUNT; lia | assumption]|].
    split; [exact Hin|]. split; [reflexivity|]. split; [reflexivity|].
    intros r Hr. apply reg_set_ne; unfold R0; lia.
  - split.
    { rewrite wrap16_small
        by (unfold u16, to_uchar; pose proof (Z.mod_pos_bound c 256); lia).
      unfold reg. cbn [registers with_registers with_stdin].
      apply list_lookup_total_insert_eq. rewrite Hlen. unfold R0, R_COUNT. lia. }
    split; [reflexivity|]. split; [reflexivity|]. split; [reflexivity|].
    intros r Hr. unfold reg. cbn [registers with_registers with_stdin].
    apply list_lookup_total_insert_ne. unfold R0. lia.
Qed.

(** X21. [IN] writes its prompt, takes the next byte of the input, writes
    that byte after the prompt and leaves it in R0, for the bytes 0 to
    127. *)
Theorem trap_in_prompts_and_echoes (c : Z) (rest : list Z) (s : machine) :
  length (registers s) = Z.to_nat R_COUNT ->
  stdin s = c :: rest -> 0 <= c < 128 ->
  exists s',
    trap_in s = Ok (tt, s') /\
    reg R0 s' = c /\
    stdout s' = stdout s ++ bytes_of_string "Digite um caractere: " ++ [c] /\
    stdin s' = rest /\ memory s' = memory s.
Proof.
  intros Hlen Hin Hc. unfold trap_in, bind, put_bytes, getchar, putc, set_reg.
  cbv beta iota zeta. cbn [stdin with_stdout]. rewrite Hin. cbv beta iota.
  assert (Hu : to_uchar c = c) by (apply to_uchar_small; lia).
  assert (Hch : to_char c = c).
  { unfold to_char. rewrite Z.mod_small by lia. lia. }
  rewrite Hu, Hch, Hu. rewrite (wrap16_small c) by (unfold u16; lia).
  eexists. split; [reflexivity|].
  split; [|split; [|split; reflexivity]].
  - unfold reg. cbn [registers with_registers with_stdin with_stdout].
    apply list_lookup_total_insert_eq. rewrite Hlen. unfold R0, R_COUNT. lia.
  - cbn [stdout with_registers with_stdin with_stdout].
    rewrite <- app_assoc. reflexivity.
Qed.

(** X22. [GETC] followed by [OUT] echoes the key: the output grows by
    exactly the byte that was read, which is also left in R0. *)
Theorem getc_then_out_echoes (c : Z) (rest : list Z) (s : machine) :
  length (registers s) = Z.to_nat R_COUNT ->
  stdin s = c :: rest ->
  exists s1 s2,
    trap_getc s = Ok (tt, s1) /\ trap_out s1 = Ok (tt, s2) /\
    stdout s2 = stdout s ++ [to_uchar c] /\
    reg R0 s2 = to_uchar c /\ stdin s2 = rest.
Proof.
  intros Hlen Hin.
  set (s1 := with_registers (<[Z.to_nat R0 := to_uchar c]> (registers s))
               (with_stdin rest s)).
  assert (Hr : reg R0 s1 = to_uchar c).
  { unfold reg, s1. cbn [registers with_registers].
    apply list_lookup_total_insert_eq. rewrite Hlen. unfold R0, R_COUNT. lia. }
  exists s1, (with_stdout (stdout s1 ++ [to_uchar (to_char (reg R0 s1))]) s1).
  split; [|split; [reflexivity|]].
  - unfold trap_getc, bind, getchar, set_reg. rewrite Hin. cbv beta iota.
    rewrite wrap16_small
      by (unfold u16, to_uchar; pose proof (Z.mod_pos_bound c 256); lia).
    reflexivity.
  - split; [|split; [exact Hr | reflexivity]].
    cbn [stdout with_stdout]. rewrite Hr, to_uchar_to_char.
    unfold to_uchar. rewrite Z.mod_mod by lia. reflexivity.
Qed.


Lemma blank_cell a : 0 <= a < UINT16_MAX -> cell a blank_machine = Some 0.
Proof.
  intros Ha. unfold cell. cbn [blank_machine boot memory].
  apply lookup_replicate_2. lia.
Qed.

Lemma later_image_overrides_witness :
  u16 0x3000 /\ u16 0x3001 /\ Forall u16 sample_words /\ Forall u16 other_words /\
  length blank_memory = Z.to_nat UINT16_MAX /\
  exists mem',
    load_images [("a.obj"%string, Some (image_file 0x3000 sample_words));
                 ("b.obj"%string, Some (image_file 0x3001 other_words))] blank_memory
      = Some (inr mem') /\
    (forall i w, other_words !! i = Some w ->
       (Z.to_nat 0x3001 + i < Z.to_nat UINT16_MAX)%nat ->
       mem' !! (Z.to_nat 0x3001 + i)%nat = Some w) /\
    (forall i w, sample_words !! i = Some w ->
       (Z.to_nat 0x3000 + i < Z.to_nat UINT16_MAX)%nat ->
       (Z.to_nat 0x3000 + i < Z.to_nat 0x3001 \/
        Z.to_nat 0x3001 + length other_words <= Z.to_nat 0x3000 + i)%nat ->
       mem' !! (Z.to_nat 0x3000 + i)%nat = Some w).
Proof.
  assert (H1 : u16 0x3000) by (unfold u16; lia).
  assert (H2 : u16 0x3001) by (unfold u16; lia).
  assert (H3 : Forall u16 sample_words) by (repeat constructor; unfold u16; lia).
  assert (H4 : Forall u16 other_words) by (repeat constructor; unfold u16; lia).
  assert (H5 : length blank_memory = Z.to_nat UINT16_MAX) by apply length_replicate.
  split; [exact H1 | split; [exact H2 | split; [exact H3 | split; [exact H4 |
    split; [exact H5 |]]]]].
  apply (later_image_overrides "a.obj" "b.obj" 0x3000 0x3001
           sample_words other_words blank_memory); assumption.
Defined.

Lemma main_exit_codes_witness :
  main halt_args [] [] (Some 1%nat) 1
    = Exit_called (-2) (bytes_of_string "HALT" ++ [10; 10]) /\
  exists n mem s,
    Some 1%nat = Some n /\ (n <= 1)%nat /\
    load_images halt_args blank_memory = Some (inr mem) /\
    run n (with_polls [] (boot mem [])) = Still_running s /\
    bytes_of_string "HALT" ++ [10; 10] = stdout s ++ [10].
Proof.
  assert (Hm : main halt_args [] [] (Some 1%nat) 1
               = Exit_called (-2) (bytes_of_string "HALT" ++ [10; 10]))
    by (vm_compute; reflexivity).
  split; [exact Hm|].
  destruct (proj1 (proj2 (proj2 (main_exit_codes halt_args [] [] (Some 1%nat) 1)))
              _ _ Hm) as [[H _] | [[H _] | [_ H]]];
    [discriminate H | discriminate H | exact H].
Defined.


Lemma st_then_ld_witness :
  well_sized blank_machine /\
  pc_relative 0x3005 blank_machine < 0xFFFF /\
  pc_relative 0x3005 blank_machine <> MR_KBSR /\
  exists s1,
    st 0x3005 blank_machine = Ok (tt, s1) /\
    registers s1 = registers blank_machine /\
    cell (pc_relative 0x3005 blank_machine) s1
      = Some (reg (field 0x3005 9 3) blank_machine) /\
    forall s1',
      memory s1' = memory s1 -> length (registers s1') = Z.to_nat R_COUNT ->
      pc_relative 0x2205 s1' = pc_relative 0x3005 blank_machine ->
      exists s2, ld 0x2205 s1' = Ok (tt, s2) /\
                 reg (field 0x2205 9 3) s2 = reg (field 0x3005 9 3) blank_machine.
Proof.
  assert (H1 : pc_relative 0x3005 blank_machine < 0xFFFF) by reflexivity.
  assert (H2 : pc_relative 0x3005 blank_machine <> MR_KBSR) by discriminate.
  split; [apply well_sized_blank | split; [exact H1 | split; [exact H2 |]]].
  apply (st_then_ld 0x3005 0x2205 blank_machine);
    [apply well_sized_blank | exact H1 | exact H2].
Defined.

Lemma str_then_ldr_witness :
  well_sized blank_machine /\
  base_offset 0x7040 blank_machine < 0xFFFF /\
  base_offset 0x7040 blank_machine <> MR_KBSR /\
  exists s1,
    str 0x7040 blank_machine = Ok (tt, s1) /\
    registers s1 = registers blank_machine /\
    cell (base_offset 0x7040 blank_machine) s1
      = Some (reg (field 0x7040 9 3) blank_machine) /\
    forall s1',
      memory s1' = memory s1 -> length (registers s1') = Z.to_nat R_COUNT ->
      base_offset 0x6440 s1' = base_offset 0x7040 blank_machine ->
      exists s2, ldr 0x6440 s1' = Ok (tt, s2) /\
                 reg (field 0x6440 9 3) s2 = reg (field 0x7040 9 3) blank_machine.
Proof.
  assert (H1 : base_offset 0x7040 blank_machine < 0xFFFF) by reflexivity.
  assert (H2 : base_offset 0x7040 blank_machine <> MR_KBSR) by discriminate.
  split; [apply well_sized_blank | split; [exact H1 | split; [exact H2 |]]].
  apply (str_then_ldr 0x7040 0x6440 blank_machine);
    [apply well_sized_blank | exact H1 | exact H2].
Defined.

Lemma sti_then_ldi_witness :
  well_sized blank_machine /\
  pc_relative 0xB005 blank_machine <> MR_KBSR /\
  cell (pc_relative 0xB005 blank_machine) blank_machine = Some 0 /\
  0 <= 0 < 0xFFFF /\ 0 <> MR_KBSR /\ 0 <> pc_relative 0xB005 blank_machine /\
  exists s1,
    sti 0xB005 blank_machine = Ok (tt, s1) /\
    registers s1 = registers blank_machine /\
    cell 0 s1 = Some (reg (field 0xB005 9 3) blank_machine) /\
    cell (pc_relative 0xB005 blank_machine) s1 = Some 0 /\
    forall s1',
      memory s1' = memory s1 -> length (registers s1') = Z.to_nat R_COUNT ->
      pc_relative 0xA205 s1' = pc_relative 0xB005 blank_machine ->
      exists s2, ldi 0xA205 s1' = Ok (tt, s2) /\
                 reg (field 0xA205 9 3) s2 = reg (field 0xB005 9 3) blank_machine.
Proof.
  assert (H1 : pc_relative 0xB005 blank_machine <> MR_KBSR) by discriminate.
  assert (H2 : cell (pc_relative 0xB005 blank_machine) blank_machine = Some 0)
    by (apply blank_cell; split; [discriminate | reflexivity]).
  assert (H3 : 0 <= 0 < 0xFFFF) by lia.
  assert (H4 : 0 <> MR_KBSR) by discriminate.
  assert (H5 : 0 <> pc_relative 0xB005 blank_machine) by discriminate.
  split; [apply well_sized_blank | split; [exact H1 | split; [exact H2 |
    split; [exact H3 | split; [exact H4 | split; [exact H5 |]]]]]].
  apply (sti_then_ldi 0xB005 0xA205 0 blank_machine);
    [apply well_sized_blank | assumption..].
Defined.

Lemma register_only_instructions_witness :
  register_only (Z.shiftr 0x1025 12) = true /\
  exists regs,
    execute 0x1025 blank_machine = Ok (tt, with_registers regs blank_machine) /\
    length regs = length (registers blank_machine).
Proof.
  split; [reflexivity |].
  apply (register_only_instructions 0x1025 blank_machine). reflexivity.
Defined.

Lemma not_complements_witness :
  well_formed blank_machine /\
  exists s',
    not 0x923F blank_machine = Ok (tt, s') /\
    reg (field 0x923F 9 3) s' = 0xFFFF - reg (field 0x923F 6 3) blank_machine /\
    (forall k, 0 <= k < 16 ->
       Z.testbit (reg (field 0x923F 9 3) s') k
       = negb (Z.testbit (reg (field 0x923F 6 3) blank_machine) k)) /\
    (field 0x947F 6 3 = field 0x923F 9 3 ->
     exists s'', not 0x947F s' = Ok (tt, s'') /\
                 reg (field 0x947F 9 3) s'' = reg (field 0x923F 6 3) blank_machine).
Proof.
  split; [apply well_formed_blank |].
  apply (not_complements 0x923F 0x947F blank_machine). apply well_formed_blank.
Defined.

Lemma br_taken_on_common_flag_witness :
  length (registers after_add) = Z.to_nat R_COUNT /\
  ((Z.land (field 0x0205 9 3) (reg R_COND after_add) = 0 ->
      br 0x0205 after_add = Ok (tt, after_add)) /\
   (Z.land (field 0x0205 9 3) (reg R_COND after_add) <> 0 ->
      exists s', br 0x0205 after_add = Ok (tt, s') /\
        reg R_PC s' = pc_relative 0x0205 after_add /\
        (forall r, 0 <= r -> r <> R_PC -> reg r s' = reg r after_add) /\
        memory s' = memory after_add /\ stdin s' = stdin after_add /\
        stdout s' = stdout after_add) /\
   (reg R_COND after_add = 0 -> br 0x0205 after_add = Ok (tt, after_add))).
Proof.
  split; [reflexivity |].
  apply (br_taken_on_common_flag 0x0205 after_add). reflexivity.
Defined.

Lemma call_then_return_witness :
  length (registers blank_machine) = Z.to_nat R_COUNT /\
  field 0xC1C0 6 3 = R7 /\
  exists s1 s2,
    jsr 0x4805 blank_machine = Ok (tt, s1) /\ jmp 0xC1C0 s1 = Ok (tt, s2) /\
    reg R_PC s2 = reg R_PC blank_machine /\
    memory s2 = memory blank_machine /\ stdout s2 = stdout blank_machine.
Proof.
  split; [reflexivity | split; [reflexivity |]].
  apply (call_then_return 0x4805 0xC1C0 blank_machine); reflexivity.
Defined.

Lemma stores_keep_registers_witness :
  (Z.shiftr 0x3005 12 = OP_ST \/ Z.shiftr 0x3005 12 = OP_STI \/
   Z.shiftr 0x3005 12 = OP_STR) /\
  execute 0x3005 blank_machine = Ok (tt, after_store) /\
  (registers after_store = registers blank_machine /\
   stdout after_store = stdout blank_machine /\
   running after_store = running blank_machine /\
   length (memory after_store) = length (memory blank_machine)).
Proof.
  assert (H1 : Z.shiftr 0x3005 12 = OP_ST \/ Z.shiftr 0x3005 12 = OP_STI \/
               Z.shiftr 0x3005 12 = OP_STR) by (left; reflexivity).
  assert (H2 : execute 0x3005 blank_machine = Ok (tt, after_store)).
  { rewrite execute_st, st_eq by reflexivity.
    apply (mem_write_ok 0x3005 0 blank_machine).
    rewrite blank_cell by (unfold UINT16_MAX; lia). eexists; reflexivity. }
  split; [exact H1 | split; [exact H2 |]].
  apply (stores_keep_registers 0x3005 blank_machine after_store tt H1 H2).
Defined.

Lemma well_sized_poll : well_sized poll_machine.
Proof.
  split; cbn [poll_machine boot memory registers].
  - rewrite length_insert. apply length_replicate.
  - rewrite length_insert. apply length_replicate.
Qed.

Lemma ldi_polls_keyboard_witness :
  well_sized poll_machine /\
  pc_relative 0xA005 poll_machine <> MR_KBSR /\
  cell (pc_relative 0xA005 poll_machine) poll_machine = Some MR_KBSR /\
  exists s',
    ldi 0xA005 poll_machine = Ok (tt, s') /\
    if readable poll_machine then
      reg (field 0xA005 9 3) s' = 0x8000 /\ reg R_COND s' = FLG_NEG /\
      match stdin poll_machine with
      | c :: rest => cell MR_KBDR s' = Some (to_uchar c) /\ stdin s' = rest
      | [] => cell MR_KBDR s' = Some 0xFFFF /\ stdin s' = []
      end
    else
      reg (field 0xA005 9 3) s' = 0 /\ reg R_COND s' = FLG_ZRO /\
      cell MR_KBDR s' = cell MR_KBDR poll_machine /\
      stdin s' = stdin poll_machine.
Proof.
  assert (H1 : pc_relative 0xA005 poll_machine <> MR_KBSR) by discriminate.
  assert (H2 : cell (pc_relative 0xA005 poll_machine) poll_machine = Some MR_KBSR).
  { change (pc_relative 0xA005 poll_machine) with 0x3005.
    unfold cell. cbn [poll_machine boot memory].
    apply list_lookup_insert_eq. unfold blank_memory.
    rewrite length_replicate. unfold UINT16_MAX. lia. }
  split; [apply well_sized_poll | split; [exact H1 | split; [exact H2 |]]].
  apply (ldi_polls_keyboard 0xA005 poll_machine);
    [apply well_sized_poll | exact H1 | exact H2].
Defined.

Lemma abort_only_on_unused_opcode_witness :
  u16 0x8000 /\
  (execute 0x8000 blank_machine = Aborted <->
   Z.shiftr 0x8000 12 = OP_RTI \/ Z.shiftr 0x8000 12 = OP_RES).
Proof.
  assert (H : u16 0x8000) by (unfold u16; lia).
  split; [exact H | apply (abort_only_on_unused_opcode 0x8000 blank_machine H)].
Defined.

Lemma trap_puts_writes_string_witness :
  Forall (fun c => c <> 0) hi_words /\
  (forall k w, hi_words !! k = Some w ->
     memory puts_machine !! (Z.to_nat (reg R0 puts_machine) + k)%nat = Some w) /\
  memory puts_machine !! (Z.to_nat (reg R0 puts_machine) + length hi_words)%nat
    = Some 0 /\
  trap_puts puts_machine
  = Ok (tt, with_stdout (stdout puts_machine ++ map to_uchar hi_words) puts_machine).
Proof.
  assert (H1 : Forall (fun c => c <> 0) hi_words)
    by (repeat constructor; discriminate).
  assert (H2 : forall k w, hi_words !! k = Some w ->
     memory puts_machine !! (Z.to_nat (reg R0 puts_machine) + k)%nat = Some w).
  { intros [|[|k]] w H; [| |discriminate H]; injection H as <-; vm_compute; reflexivity. }
  assert (H3 : memory puts_machine
                 !! (Z.to_nat (reg R0 puts_machine) + length hi_words)%nat = Some 0)
    by (vm_compute; reflexivity).
  split; [exact H1 | split; [exact H2 | split; [exact H3 |]]].
  apply (trap_puts_writes_string hi_words puts_machine H1 H2 H3).
Defined.

Lemma trap_puts_runs_off_the_array_witness :
  Forall (fun c => c <> 0)
    (drop (Z.to_nat (reg R0 unterminated_machine)) (memory unterminated_machine)) /\
  trap_puts unterminated_machine = Undefined.
Proof.
  assert (H : Forall (fun c => c <> 0)
    (drop (Z.to_nat (reg R0 unterminated_machine)) (memory unterminated_machine))).
  { change (Z.to_nat (reg R0 unterminated_machine)) with (Z.to_nat 0xFFFE).
    cbn [unterminated_machine boot memory with_registers].
    rewrite (drop_S _ 65 (Z.to_nat 0xFFFE)).
    - rewrite drop_ge; [repeat constructor; discriminate|].
      rewrite length_insert. unfold blank_memory. rewrite length_replicate.
      unfold UINT16_MAX. lia.
    - apply list_lookup_insert_eq. unfold blank_memory. rewrite length_replicate.
      unfold UINT16_MAX. lia. }
  split; [exact H | apply (trap_puts_runs_off_the_array unterminated_machine H)].
Defined.

Lemma trap_putsp_writes_packed_string_witness :
  Forall (fun c => c <> 0) packed_words /\
  (forall k w, packed_words !! k = Some w ->
     memory putsp_machine !! (Z.to_nat (reg R0 putsp_machine) + k)%nat = Some w) /\
  memory putsp_machine
    !! (Z.to_nat (reg R0 putsp_machine) + length packed_words)%nat = Some 0 /\
  trap_putsp putsp_machine
  = Ok (tt, with_stdout (stdout putsp_machine
                         ++ flat_map packed_chars packed_words) putsp_machine).
Proof.
  assert (H1 : Forall (fun c => c <> 0) packed_words)
    by (repeat constructor; discriminate).
  assert (H2 : forall k w, packed_words !! k = Some w ->
     memory putsp_machine !! (Z.to_nat (reg R0 putsp_machine) + k)%nat = Some w).
  { intros [|[|k]] w H; [| |discriminate H]; injection H as <-; vm_compute; reflexivity. }
  assert (H3 : memory putsp_machine
      !! (Z.to_nat (reg R0 putsp_machine) + length packed_words)%nat = Some 0)
    by (vm_compute; reflexivity).
  split; [exact H1 | split; [exact H2 | split; [exact H3 |]]].
  apply (trap_putsp_writes_packed_string packed_words putsp_machine H1 H2 H3).
Defined.

Lemma trap_getc_reads_without_echo_witness :
  length (registers key_waiting) = Z.to_nat R_COUNT /\
  exists s',
    trap_getc key_waiting = Ok (tt, s') /\
    reg R0 s' = match stdin key_waiting with
                | [] => 0xFFFF | c :: _ => to_uchar c end /\
    stdin s' = tail (stdin key_waiting) /\
    stdout s' = stdout key_waiting /\ memory s' = memory key_waiting /\
    (forall r, 0 < r -> reg r s' = reg r key_waiting).
Proof.
  split; [reflexivity |].
  apply (trap_getc_reads_without_echo key_waiting). reflexivity.
Defined.

Lemma trap_in_prompts_and_echoes_witness :
  length (registers key_waiting) = Z.to_nat R_COUNT /\
  stdin key_waiting = [65] /\ 0 <= 65 < 128 /\
  exists s',
    trap_in key_waiting = Ok (tt, s') /\
    reg R0 s' = 65 /\
    stdout s' = stdout key_waiting
                ++ bytes_of_string "Digite um caractere: " ++ [65] /\
    stdin s' = [] /\ memory s' = memory key_waiting.
Proof.
  split; [reflexivity | split; [reflexivity | split; [lia |]]].
  apply (trap_in_prompts_and_echoes 65 [] key_waiting); [reflexivity.. | lia].
Defined.

Lemma getc_then_out_echoes_witness :
  length (registers key_waiting) = Z.to_nat R_COUNT /\
  stdin key_waiting = [65] /\
  exists s1 s2,
    trap_getc key_waiting = Ok (tt, s1) /\ trap_out s1 = Ok (tt, s2) /\
    stdout s2 = stdout key_waiting ++ [to_uchar 65] /\
    reg R0 s2 = to_uchar 65 /\ stdin s2 = [].
Proof.
  split; [reflexivity | split; [reflexivity |]].
  apply (getc_then_out_echoes 65 [] key_waiting); reflexivity.
Defined.

(** ** Sequential execution *)

Lemma keeps_pc_ret {A} (a : A) : keeps_pc (ret a).
Proof. intros s x s' H. injection H as _ <-. reflexivity. Qed.

Lemma keeps_pc_bind {A B} (m : M A) (f : A -> M B) :
  keeps_pc m -> (forall a, keeps_pc (f a)) -> keeps_pc (bind m f).
Proof.
  intros Hm Hf s b s'' H. apply bind_Ok in H as (a & s' & H1 & H2).
  rewrite (Hf a _ _ _ H2). exact (Hm _ _ _ H1).
Qed.

Lemma keeps_pc_get_reg r : keeps_pc (get_reg r).
Proof. intros s x s' H. injection H as _ <-. reflexivity. Qed.

Lemma keeps_pc_set_reg r v : 0 <= r -> r <> R_PC -> keeps_pc (set_reg r v).
Proof.
  intros Hr Hne s x s' H. injection H as _ <-.
  apply reg_set_ne; [assumption | unfold R_PC; lia | assumption].
Qed.

Lemma keeps_pc_mem_load a : keeps_pc (mem_load a).
Proof. intros s x s' H. apply mem_load_inv in H as ->. reflexivity. Qed.

Lemma keeps_pc_mem_store a v : keeps_pc (mem_store a v).
Proof. intros s x s' H. apply mem_store_inv in H as ->. reflexivity. Qed.

Lemma keeps_pc_mem_read a : keeps_pc (mem_read a).
Proof.
  intros s x s' H. apply mem_read_frame in H as (Hr & _).
  unfold reg. rewrite Hr. reflexivity.
Qed.

Lemma keeps_pc_check_key : keeps_pc check_key.
Proof.
  intros s x s' H. rewrite check_key_readable in H.
  injection H as _ <-. reflexivity.
Qed.

Lemma keeps_pc_getchar : keeps_pc getchar.
Proof.
  intros s x s' H. unfold getchar in H.
  destruct (stdin s); injection H as _ <-; reflexivity.
Qed.

Lemma keeps_pc_putc c : keeps_pc (putc c).
Proof. intros s x s' H. injection H as _ <-. reflexivity. Qed.

Lemma keeps_pc_put_bytes bs : keeps_pc (put_bytes bs).
Proof. intros s x s' H. injection H as _ <-. reflexivity. Qed.

Lemma keeps_pc_field_reg x v : keeps_pc (set_reg (Z.land x 0x7) v).
Proof.
  pose proof (land7_bound x).
  apply keeps_pc_set_reg; [lia | unfold R_PC; lia].
Qed.

Lemma keeps_pc_set_cond v : keeps_pc (set_reg R_COND v).
Proof. apply keeps_pc_set_reg; [unfold R_COND; lia | discriminate]. Qed.

Lemma keeps_pc_set_r0 v : keeps_pc (set_reg R0 v).
Proof. apply keeps_pc_set_reg; [unfold R0; lia | discriminate]. Qed.

Create HintDb pc.
#[local] Hint Resolve keeps_pc_ret keeps_pc_get_reg keeps_pc_mem_load
  keeps_pc_mem_store keeps_pc_mem_read keeps_pc_check_key keeps_pc_getchar
  keeps_pc_putc keeps_pc_put_bytes keeps_pc_field_reg keeps_pc_set_cond
  keeps_pc_set_r0 : pc.

Ltac keeps_pc_auto :=
  lazymatch goal with
  | |- keeps_pc (bind _ _) =>
      apply keeps_pc_bind; [keeps_pc_auto | intros ?; keeps_pc_auto]
  | |- keeps_pc (if ?b then _ else _) => destruct b; keeps_pc_auto
  | |- _ => first [solve [auto with pc] | eassumption | idtac]
  end.

Ltac keeps_pc_in h := intros; unfold h; cbv zeta; keeps_pc_auto.

Lemma keeps_pc_mem_write a v : keeps_pc (mem_write a v).
Proof. keeps_pc_in mem_write. Qed.
Lemma keeps_pc_update_flags r : keeps_pc (update_flags r).
Proof. keeps_pc_in update_flags. Qed.
#[local] Hint Resolve keeps_pc_mem_write keeps_pc_update_flags : pc.

Lemma keeps_pc_add i : keeps_pc (add i).
Proof. keeps_pc_in add. Qed.
Lemma keeps_pc_and i : keeps_pc (and i).
Proof. keeps_pc_in and. Qed.
Lemma keeps_pc_not i : keeps_pc (not i).
Proof. keeps_pc_in not. Qed.
Lemma keeps_pc_ld i : keeps_pc (ld i).
Proof. keeps_pc_in ld. Qed.
Lemma keeps_pc_ldi i : keeps_pc (ldi i).
Proof. keeps_pc_in ldi. Qed.
Lemma keeps_pc_ldr i : keeps_pc (ldr i).
Proof. keeps_pc_in ldr. Qed.
Lemma keeps_pc_lea i : keeps_pc (lea i).
Proof. keeps_pc_in lea. Qed.
Lemma keeps_pc_st i : keeps_pc (st i).
Proof. keeps_pc_in st. Qed.
Lemma keeps_pc_sti i : keeps_pc (sti i).
Proof. keeps_pc_in sti. Qed.
Lemma keeps_pc_str i : keeps_pc (str i).
Proof. keeps_pc_in str. Qed.

Lemma keeps_pc_puts_loop cells : keeps_pc (puts_loop cells).
Proof.
  induction cells as [|c rest IH]; cbn [puts_loop].
  - intros s x s' H. discriminate H.
  - keeps_pc_auto.
Qed.

Lemma keeps_pc_putsp_loop cells : keeps_pc (putsp_loop cells).
Proof.
  induction cells as [|c rest IH]; cbn [putsp_loop].
  - intros s x s' H. discriminate H.
  - cbv zeta. keeps_pc_auto.
Qed.

Lemma keeps_pc_trap i p : keeps_pc (trap i p).
Proof.
  unfold trap. cbv zeta.
  repeat match goal with
         | |- keeps_pc (if ?b then _ else _) => destruct b
         end.
  - keeps_pc_in trap_getc.
  - keeps_pc_in trap_out.
  - unfold trap_puts. apply keeps_pc_bind; [auto with pc|].
    intros r0 s x s' H. exact (keeps_pc_puts_loop _ _ _ _ H).
  - keeps_pc_in trap_in.
  - unfold trap_putsp. apply keeps_pc_bind; [auto with pc|].
    intros r0 s x s' H. exact (keeps_pc_putsp_loop _ _ _ _ H).
  - unfold halt. keeps_pc_auto.
  - auto with pc.
Qed.

Ltac fall_through H :=
  lazymatch type of H with
  | add _ _ = _ => exact (keeps_pc_add _ _ _ _ H)
  | and _ _ = _ => exact (keeps_pc_and _ _ _ _ H)
  | not _ _ = _ => exact (keeps_pc_not _ _ _ _ H)
  | ld _ _ = _ => exact (keeps_pc_ld _ _ _ _ H)
  | ldi _ _ = _ => exact (keeps_pc_ldi _ _ _ _ H)
  | ldr _ _ = _ => exact (keeps_pc_ldr _ _ _ _ H)
  | lea _ _ = _ => exact (keeps_pc_lea _ _ _ _ H)
  | st _ _ = _ => exact (keeps_pc_st _ _ _ _ H)
  | sti _ _ = _ => exact (keeps_pc_sti _ _ _ _ H)
  | str _ _ = _ => exact (keeps_pc_str _ _ _ _ H)
  | trap _ _ _ = _ => exact (keeps_pc_trap _ _ _ _ _ H)
  | abort _ = _ => discriminate H
  | _ => contradiction
  end.

(** X23. Sequential execution: a cycle whose instruction is not BR, JMP or
    JSR/JSRR leaves the program counter at the address after the one the
    instruction was fetched from (modulo 2^16), whatever else the
    instruction does; in particular TRAP does not move the program
    counter. *)
Theorem other_instructions_fall_through (s s1 s' : machine) (i : Z) (u : unit) :
  length (registers s) = Z.to_nat R_COUNT ->
  fetch s = Ok (i, s1) ->
  execute i s1 = Ok (u, s') ->
  Z.shiftr i 12 <> OP_BR -> Z.shiftr i 12 <> OP_JMP -> Z.shiftr i 12 <> OP_JSR ->
  cycle s = Ok (u, s') /\
  reg R_PC s' = wrap16 (reg R_PC s + 1).
Proof.
  intros Hlen Hfetch Hexec Hbr Hjmp Hjsr. split.
  { unfold cycle. rewrite (bind_eq _ _ s i s1) by exact Hfetch. exact Hexec. }
  assert (H1 : reg R_PC s1 = wrap16 (reg R_PC s + 1)).
  { unfold fetch in Hfetch. unfold bind at 1, get_reg at 1 in Hfetch.
    cbv beta iota in Hfetch. unfold bind at 1, set_reg at 1 in Hfetch.
    cbv beta iota in Hfetch.
    rewrite (keeps_pc_mem_read _ _ _ _ Hfetch).
    apply reg_set_eq; [unfold R_PC, R_COUNT; lia | assumption]. }
  rewrite <- H1. revert Hexec. unfold execute. cbv zeta.
  repeat match goal with
         | |- (if ?x =? ?c then _ else _) s1 = _ -> _ =>
             destruct (Z.eqb_spec x c) as [? | ?];
               [intros Hexec; fall_through Hexec |]
         end.
  intros Hexec. discriminate Hexec.
Qed.

Lemma other_instructions_fall_through_witness :
  length (registers add_start) = Z.to_nat R_COUNT /\
  fetch add_start = Ok (0x1225, add_fetched) /\
  execute 0x1225 add_fetched = Ok (tt, add_done) /\
  Z.shiftr 0x1225 12 <> OP_BR /\ Z.shiftr 0x1225 12 <> OP_JMP /\
  Z.shiftr 0x1225 12 <> OP_JSR /\
  (cycle add_start = Ok (tt, add_done) /\
   reg R_PC add_done = wrap16 (reg R_PC add_start + 1)).
Proof.
  assert (H1 : length (registers add_start) = Z.to_nat R_COUNT) by reflexivity.
  assert (Hcell : cell 0x3000 add_start = Some 0x1225).
  { unfold cell, add_start, add_image. cbn [boot memory].
    rewrite list_lookup_insert_ne by lia.
    apply list_lookup_insert_eq. unfold blank_memory.
    rewrite length_replicate. unfold UINT16_MAX. lia. }
  assert (H2 : fetch add_start = Ok (0x1225, add_fetched)).
  { unfold fetch, bind at 1, get_reg at 1. cbv beta iota.
    unfold bind at 1, set_reg at 1. cbv beta iota.
    apply mem_read_cell; [discriminate | exact Hcell]. }
  assert (H3 : execute 0x1225 add_fetched = Ok (tt, add_done)) by reflexivity.
  split; [exact H1 | split; [exact H2 | split; [exact H3 |]]].
  split; [discriminate | split; [discriminate | split; [discriminate |]]].
  apply (other_instructions_fall_through _ _ _ _ _ H1 H2 H3); discriminate.
Defined.
